(** * bytenode/lib/index.js: bytecode cache validation, fixup and rehydration

    A shallow embedding of [src/src/bytenode/lib/index.js].  Node's [Buffer]
    is a list of bytes, a JavaScript string is a list of UTF-16 code units,
    and the host services the file imports ([vm], [zlib], [fs], [path],
    [process], [child_process]) are the fields of a [Host] class. *)

From Stdlib Require Import Strings.Byte Strings.Ascii QArith.
From stdpp Require Import base option list strings gmap.

Local Open Scope nat_scope.
Set Warnings "-register-all".

(** ** Data *)

(** A [Buffer] holds raw bytes. *)
Abbreviation Buffer := (list byte).

(** A JavaScript string, as its sequence of UTF-16 code units. *)
Abbreviation jsstring := (list N).

#[global] Instance byte_eq_decision : EqDecision byte := Byte.byte_eq_dec.

(** Code units of an ASCII literal of the source. *)
Definition lit (s : string) : jsstring :=
  map Ascii.N_of_ascii (String.list_ascii_of_string s).

(** The JavaScript values that reach the functions of this file. *)
Inductive value :=
| VUndefined
| VNull
| VBool (b : bool)
| VNumber (n : Z)
| VString (s : jsstring)
| VBuffer (b : Buffer)
| VObject (fields : list (string * value)).

(** What the file throws, and what the host libraries throw into it. *)
Inductive exn :=
| Error (message : string)            (* [throw new Error(message)] *)
| AssertionError (message : string)   (* a failed [assert.ok] *)
| SyntaxError                         (* [new vm.Script] on bad source *)
| TypeError                           (* property read on undefined or null, bad argument type *)
| ZlibError                           (* [brotliDecompressSync] on input that is not a Brotli stream *)
| RangeError                          (* a string longer than the engine allows *)
| SystemError (code : string).        (* [fs] and [child_process] failures *)

Abbreviation result A := (exn + A)%type.

Definition throw {A} (e : exn) : result A := inl e.
Definition ret {A} (a : A) : result A := inr a.
Definition bind {A B} (m : result A) (k : A -> result B) : result B :=
  match m with inl e => inl e | inr a => k a end.

Notation "'let*' x ':=' m 'in' k" := (bind m (fun x => k))
  (at level 10, x name, m at level 100, k at level 200).

(** ** Buffer primitives of Node *)

(** [buf.subarray(start, end)] for constant [0 <= start <= end]: the indices are
    clamped to the length of the buffer. *)
Definition subarray (start end_ : nat) (buf : Buffer) : Buffer :=
  take (end_ - start) (drop start buf).

(** [a.equals(b)]. *)
Definition equals (a b : Buffer) : bool := bool_decide (a = b).

(** [source.copy(target, targetStart)]: returns the new contents of [target].
    Nothing is copied when [targetStart] is at or past the end of the target,
    and the copy is cut to what fits. *)
Definition copy (source target : Buffer) (targetStart : nat) : Buffer :=
  if decide (length target <= targetStart) then target
  else
    let nb := min (length source) (length target - targetStart) in
    take targetStart target ++ take nb source ++ drop (targetStart + nb) target.

(** [Buffer.isBuffer(v)]. *)
Definition isBuffer (v : value) : bool :=
  match v with VBuffer _ => true | _ => false end.

(** ** Constants *)

Definition COMPILED_EXTNAME : jsstring := lit ".jsc".
Definition MAGIC_NUMBER : Buffer := [Byte.xde; Byte.xc0].
Definition ZERO_LENGTH_EXTERNAL_REFERENCE_TABLE : Buffer := [Byte.x00; Byte.x00].

(** ** Format validator *)

Definition isBufferV8Bytecode (buffer : value) : bool :=
  match buffer with
  | VBuffer b =>
      negb (equals (subarray 0 2 b) ZERO_LENGTH_EXTERNAL_REFERENCE_TABLE)
      && equals (subarray 2 4 b) MAGIC_NUMBER
  | _ => false
  end.

(** ** Values: [typeof], truthiness, property reads *)

Definition typeof (v : value) : string :=
  match v with
  | VUndefined => "undefined"
  | VNull | VBuffer _ | VObject _ => "object"
  | VBool _ => "boolean"
  | VNumber _ => "number"
  | VString _ => "string"
  end.

Definition truthy (v : value) : bool :=
  match v with
  | VUndefined | VNull => false
  | VBool b => b
  | VNumber n => negb (n =? 0)%Z
  | VString s => negb (bool_decide (s = []))
  | VBuffer _ | VObject _ => true
  end.

Fixpoint field (k : string) (fields : list (string * value)) : value :=
  match fields with
  | [] => VUndefined
  | (k', v) :: rest => if String.eqb k k' then v else field k rest
  end.

(** [v.k] for the option names this file reads ([filename], [compress],
    [electronPath], ...): a [TypeError] on [undefined] and [null], the field
    of an object literal, and [undefined] on booleans, numbers, strings and
    buffers, whose prototypes carry none of these names. *)
Definition get (v : value) (k : string) : result value :=
  match v with
  | VUndefined | VNull => throw TypeError
  | VObject fields => ret (field k fields)
  | _ => ret VUndefined
  end.

(** [a || b]. *)
Definition or_else (a b : value) : value := if truthy a then a else b.

(** ** The host: engine, zlib, process, path *)

(** A compiled unit, as [new vm.Script(source, { cachedData, filename })]
    leaves it: the engine keeps the cache buffer it was handed. *)
Record Script := {
  script_source : jsstring;
  script_cachedData : Buffer;
  script_filename : value;
}.

Class Host := {
  (** [process.version], such as ["v18.17.1"]. *)
  process_version : string;
  (** [new vm.Script(source, { produceCachedData: true })] followed by
      [createCachedData()]; [None] when the source does not parse. *)
  createCachedData : jsstring -> option Buffer;
  (** [script.cachedDataRejected] after
      [new vm.Script(source, { cachedData, filename })]. *)
  cachedDataRejected : jsstring -> Buffer -> bool;
  (** [zlib.brotliCompressSync] on a buffer. *)
  brotliCompressSync : Buffer -> Buffer;
  (** [zlib.brotliDecompressSync]; [None] when it throws. *)
  brotliDecompressSync : value -> option Buffer;
  (** [require('electron')]: the path of the installed Electron binary;
      [None] when the package is absent. *)
  electronExecutablePath : option jsstring;
  (** [path.normalize], [path.extname], [Module.wrap] and the UTF-8 decoding
      of [fs.readFileSync(_, 'utf-8')]. *)
  path_normalize : jsstring -> jsstring;
  path_extname : jsstring -> jsstring;
  Module_wrap : jsstring -> jsstring;
  utf8_decode : Buffer -> jsstring;
  (** The longest string the engine builds, in code units (V8's
      [String::kMaxLength], below 2^30); [repeat] and [+] throw
      [RangeError: Invalid string length] past it. *)
  max_string_length : N;
}.

(** ** [process.version] tests *)

(** [s.startsWith(p)]. *)
Definition startsWith (p s : string) : bool := String.prefix p s.

(** [s.slice(1, 5)]. *)
Definition slice_1_5 (s : string) : string := String.substring 1 4 s.

Definition digit_of (a : Ascii.ascii) : option Z :=
  let n := Z.of_N (Ascii.N_of_ascii a) in
  if ((48 <=? n) && (n <=? 57))%Z then Some (n - 48)%Z else None.

(** Leading decimal digits of [s]: their value as an integer, how many there
    are, and the rest of the string. *)
Fixpoint digits (acc : Z) (count : nat) (s : string) : Z * nat * string :=
  match s with
  | String a rest =>
      match digit_of a with
      | Some d => digits (10 * acc + d)%Z (S count) rest
      | None => (acc, count, s)
      end
  | EmptyString => (acc, count, s)
  end.

(** [parseFloat(s)] on text made of decimal digits and dots, which is what
    [process.version.slice(1, 5)] holds (the version is ["v"] followed by
    dot-separated numerals): the longest prefix [digits], [digits.digits],
    [digits.] or [.digits] is read, and the result is [NaN] ([None]) when
    there is none.  The value is kept as an exact rational.  The source only
    compares it with the integers 12 and 20; both are doubles, and rounding a
    decimal to the nearest double is monotone, so these comparisons give the
    same answer on the rational as on the double.  Signs, exponents and
    [Infinity] do not occur in a version slice and are not read. *)
Definition parseFloat (s : string) : option Q :=
  let '(ip, ni, rest) := digits 0 0 s in
  let no_fraction := if decide (ni = 0) then None else Some (inject_Z ip) in
  match rest with
  | String a frac =>
      if Ascii.eqb a "." then
        let '(fp, nf, _) := digits 0 0 frac in
        if decide (ni = 0 /\ nf = 0) then None
        else Some (inject_Z ip + (fp # Pos.of_nat (10 ^ nf)))%Q
      else no_fraction
  | EmptyString => no_fraction
  end.

(** [x >= 12 && x <= 20] for [x = parseFloat(...)]; both tests are false on
    [NaN]. *)
Definition between_12_and_20 (x : option Q) : bool :=
  match x with
  | Some q => Qle_bool 12 q && Qle_bool q 20
  | None => false
  end.

(** The test of the first branch of [fixBytecode] and [readSourceHash]. *)
Definition is_v8_8_or_v8_9 (version : string) : bool :=
  startsWith "v8.8" version || startsWith "v8.9" version.

(** ** Compiler *)

Section Core.
Context `{H : Host}.

Definition compileCode (javascriptCode compress : value) : result Buffer :=
  match javascriptCode with
  | VString source =>
      match createCachedData source with
      | None => throw SyntaxError
      | Some bytecodeBuffer =>
          ret (if truthy compress then brotliCompressSync bytecodeBuffer
               else bytecodeBuffer)
      end
  | _ =>
      throw (Error ("javascriptCode must be string. " +:+ typeof javascriptCode
                    +:+ " was given."))
  end.

(** ** Compatibility fixup *)

(** The reference source: U+0CA0, an underscore and U+0CA0 between double
    quotes. *)
Definition dummySource : jsstring := [34; 0x0CA0; 95; 0x0CA0; 34]%N.

(** [fixBytecode] writes into its argument; the model returns the contents
    of that buffer when the function returns. *)
Definition fixBytecode (bytecodeBuffer : value) : result Buffer :=
  match bytecodeBuffer with
  | VBuffer target =>
      let* dummyBytecode := compileCode (VString dummySource) VUndefined in
      let version := parseFloat (slice_1_5 process_version) in
      if is_v8_8_or_v8_9 process_version then
        let target := copy (subarray 16 20 dummyBytecode) target 16 in
        let target := copy (subarray 20 24 dummyBytecode) target 20 in
        ret target
      else if between_12_and_20 version then
        ret (copy (subarray 12 16 dummyBytecode) target 12)
      else
        let target := copy (subarray 12 16 dummyBytecode) target 12 in
        let target := copy (subarray 16 20 dummyBytecode) target 16 in
        ret target
  | _ => throw (Error "bytecodeBuffer must be a buffer object.")
  end.

(** ** Rehydrator *)

(** [bytes.reduce((sum, number, power) => sum += number * Math.pow(256, power), 0)]:
    [power] is the index of [number]; every intermediate value is an integer
    below 2^32, which a double holds exactly. *)
Fixpoint reduce_le (power : nat) (bytes : Buffer) (sum : N) : N :=
  match bytes with
  | [] => sum
  | number :: rest =>
      reduce_le (S power) rest (sum + Byte.to_N number * 256 ^ N.of_nat power)%N
  end.

Definition readSourceHash (bytecodeBuffer : value) : result N :=
  match bytecodeBuffer with
  | VBuffer b =>
      if is_v8_8_or_v8_9 process_version then
        ret (reduce_le 0 (subarray 12 16 b) 0%N)
      else
        ret (reduce_le 0 (subarray 8 12 b) 0%N)
  | _ => throw (Error "bytecodeBuffer must be a buffer object.")
  end.

(** The filler ['\u200b'] (zero width space) and the quote. *)
Definition ZERO_WIDTH_SPACE : N := 0x200B%N.
Definition QUOTE : N := 34%N.

(** [text.repeat(count)] for a one-unit [text] and an integer [count >= 0],
    and [a + b] on strings: both throw when the result would be longer than
    the engine allows. *)
Definition js_repeat (unit : N) (count : N) : result jsstring :=
  if (count <=? max_string_length)%N then ret (repeat unit (N.to_nat count))
  else throw RangeError.

Definition js_concat (a b : jsstring) : result jsstring :=
  if (N.of_nat (length a + length b) <=? max_string_length)%N then ret (a ++ b)
  else throw RangeError.

(** Lines 35 to 39 of [generateScript]: the placeholder source text for a
    declared length. *)
Definition dummyCode (length : N) : result jsstring :=
  if (1 <? length)%N then
    let* filler := js_repeat ZERO_WIDTH_SPACE (length - 2) in
    let* opened := js_concat [QUOTE] filler in
    js_concat opened [QUOTE]
  else ret [].

(** Lines 24 to 29 of [generateScript]: the buffer that goes on to the fixup.
    A buffer that passes the check is kept; anything else is handed to
    [brotliDecompressSync], whose exception leaves the function, and the
    result is checked again by [assert.ok]. *)
Definition decompressIfNeeded (cachedData : value) : result value :=
  if isBufferV8Bytecode cachedData then ret cachedData
  else
    match brotliDecompressSync cachedData with
    | None => throw ZlibError
    | Some decompressed =>
        if isBufferV8Bytecode (VBuffer decompressed) then ret (VBuffer decompressed)
        else throw (AssertionError "Invalid bytecode buffer")
    end.

Definition generateScript (cachedData filename : value) : result Script :=
  let* cachedData := decompressIfNeeded cachedData in
  let* fixed := fixBytecode cachedData in
  let* length := readSourceHash (VBuffer fixed) in
  let* dummyCode := dummyCode length in
  let script := {| script_source := dummyCode;
                   script_cachedData := fixed;
                   script_filename := filename |} in
  if cachedDataRejected dummyCode fixed then
    throw (Error "Invalid or incompatible cached data (cachedDataRejected)")
  else ret script.

(** [runBytecode] up to the compiled unit it runs: [script.runInThisContext()]
    is the engine executing the cached code. *)
Definition runBytecode_script (bytecodeBuffer : value) : result Script :=
  if isBuffer bytecodeBuffer then generateScript bytecodeBuffer VUndefined
  else throw (Error "bytecodeBuffer must be a buffer object.").

End Core.

(** ** Cross-runtime compiler *)

Inductive promise (A : Type) :=
| Pending
| Resolved (a : A)
| Rejected (e : exn).
Arguments Pending {A}.
Arguments Resolved {A} a.
Arguments Rejected {A} e.

(** What the spawned child does, in the order the parent's event loop sees
    it. *)
Inductive child_event :=
| StdoutData (chunk : Buffer)     (* child.stdout 'data' *)
| StdoutError (err : exn)         (* child.stdout 'error' *)
| StdoutEnd                       (* child.stdout 'end' *)
| StderrData (chunk : Buffer)     (* child.stderr 'data' *)
| StderrError (err : exn)         (* child.stderr 'error' *)
| ChildMessage (message : value)  (* child 'message' *)
| ChildError (err : exn)          (* child 'error' *)
| ChildExit (code : Z).           (* child 'exit' *)

Inductive console_line :=
| LogError (err : exn)
| LogStderr (chunk : Buffer)
| LogMessage (message : value).

(** The variables the handlers of [compileElectronCode] close over: the
    accumulated [data], the state of the returned promise and the console. *)
Record electron_state := {
  data : Buffer;
  settled : promise Buffer;
  console : list console_line;
}.

(** [resolve(v)] and [reject(e)]: only the first call settles the promise. *)
Definition resolve (v : Buffer) (p : promise Buffer) : promise Buffer :=
  match p with Pending => Resolved v | _ => p end.
Definition reject (e : exn) (p : promise Buffer) : promise Buffer :=
  match p with Pending => Rejected e | _ => p end.

Section Electron.
Context `{H : Host}.

(** [options.compress], read when [onEnd] runs; [options] is never
    [undefined] or [null] there. *)
Definition options_compress (options : value) : bool :=
  match get options "compress" with
  | inr v => truthy v
  | inl _ => false
  end.

Definition onEnd (options : value) (st : electron_state) : electron_state :=
  let data' := if options_compress options then brotliCompressSync (data st)
               else data st in
  {| data := data'; settled := resolve data' (settled st); console := console st |}.

Definition on_event (options : value) (st : electron_state) (ev : child_event)
  : electron_state :=
  match ev with
  | StdoutData chunk =>
      {| data := data st ++ chunk; settled := settled st; console := console st |}
  | StdoutError err =>
      {| data := data st; settled := settled st;
         console := console st ++ [LogError err] |}
  | StdoutEnd => onEnd options st
  | StderrData chunk =>
      {| data := data st; settled := settled st;
         console := console st ++ [LogStderr chunk] |}
  | StderrError err =>
      {| data := data st; settled := settled st;
         console := console st ++ [LogError err] |}
  | ChildMessage message =>
      {| data := data st; settled := settled st;
         console := console st ++ [LogMessage message] |}
  | ChildError err =>
      {| data := data st; settled := reject err (settled st);
         console := console st ++ [LogError err] |}
  | ChildExit _ => onEnd options st
  end.

Definition run_child (options : value) (events : list child_event)
  (st : electron_state) : electron_state :=
  fold_left (on_event options) events st.

(** The synchronous part of the promise executor: everything before the
    child is spawned.  [exists_] is [fs.existsSync].  An exception thrown
    here rejects the promise. *)
Definition electron_setup (exists_ : jsstring -> bool)
  (javascriptCode options : value) : result value :=
  match electronExecutablePath with
  | None => throw (SystemError "MODULE_NOT_FOUND")
  | Some defaultPath =>
      let options := or_else options (VObject []) in
      let* p := get options "electronPath" in
      let* electronPath :=
        (if truthy p then
           match p with
           | VString s => ret (path_normalize s)
           | _ => throw TypeError
           end
         else ret defaultPath) in
      if exists_ electronPath then
        match javascriptCode with
        | VString _ | VBuffer _ => ret options
        | _ => throw TypeError      (* child.stdin.write of another type *)
        end
      else throw (Error "Electron not found")
  end.

(** [compileElectronCode(javascriptCode, options)]: the state of the returned
    promise once the child has produced [events]. *)
Definition compileElectronCode (exists_ : jsstring -> bool)
  (javascriptCode options : value) (events : list child_event) : promise Buffer :=
  match electron_setup exists_ javascriptCode options with
  | inl e => Rejected e
  | inr options =>
      settled (run_child options events
                 {| data := []; settled := Pending; console := [] |})
  end.

End Electron.

(** ** Files *)

(** The disk: path to contents. *)
Abbreviation Disk := (gmap jsstring Buffer).

(** [fs.readFileSync(filename)]: a fresh buffer with the contents. *)
Definition readFileSync (disk : Disk) (filename : jsstring) : result Buffer :=
  match disk !! filename with
  | Some contents => ret contents
  | None => throw (SystemError "ENOENT")
  end.

(** [fs.writeFileSync(filename, buffer)]. *)
Definition writeFileSync (disk : Disk) (filename : jsstring) (buffer : Buffer) : Disk :=
  <[filename := buffer]> disk.

(** [fs.existsSync(path)]. *)
Definition existsSync (disk : Disk) (path : jsstring) : bool :=
  bool_decide (is_Some (disk !! path)).

(** [code.replace(/^#!.*/, '')]: a leading [#!] goes with the rest of its
    line; the line terminator stays. *)
Definition is_line_terminator (c : N) : bool :=
  bool_decide (c ∈ [0x0A; 0x0D; 0x2028; 0x2029]%N).

Fixpoint drop_line (s : jsstring) : jsstring :=
  match s with
  | [] => []
  | c :: rest => if is_line_terminator c then s else drop_line rest
  end.

Definition strip_sheBang (s : jsstring) : jsstring :=
  match s with
  | 35%N :: 33%N :: rest => drop_line rest
  | _ => s
  end.

(** [filename.slice(0, -n)]: [-0] is [0], so nothing is left when [n = 0]. *)
Definition slice_0_neg (n : nat) (s : jsstring) : jsstring :=
  if decide (n = 0) then [] else take (length s - n) s.

Section Files.
Context `{H : Host}.

(** [runBytecodeFile] and the [.jsc] handler of [Module._extensions] up to
    the compiled unit they go on to execute: the file is read and handed to
    [generateScript].  The disk is threaded through to show what the load
    does to it. *)
Definition runBytecodeFile_script (disk : Disk) (filename : value)
  : result Script * Disk :=
  match filename with
  | VString name =>
      match readFileSync disk name with
      | inl e => (throw e, disk)
      | inr bytecodeBuffer => (runBytecode_script (VBuffer bytecodeBuffer), disk)
      end
  | _ =>
      (throw (Error ("filename must be a string. " +:+ typeof filename
                     +:+ " was given.")), disk)
  end.

Definition extension_jsc_script (disk : Disk) (filename : jsstring)
  : result Script * Disk :=
  match readFileSync disk filename with
  | inl e => (throw e, disk)
  | inr bytecodeBuffer =>
      (generateScript (VBuffer bytecodeBuffer) (VString filename), disk)
  end.

(** The local variables of [compileFile] after lines 222 to 237. *)
Record compile_request := {
  rq_filename : value;
  rq_compileAsModule : bool;
  rq_compress : value;
  rq_electron : value;
  rq_electronPath : value;
}.

Definition read_args (args : value) : result compile_request :=
  if String.eqb (typeof args) "string" then
    ret {| rq_filename := args; rq_compileAsModule := true;
           rq_compress := VBool false; rq_electron := VBool false;
           rq_electronPath := VUndefined |}
  else if String.eqb (typeof args) "object" then
    let* filename := get args "filename" in
    let* compileAsModule := get args "compileAsModule" in
    let* compress := get args "compress" in
    let* electron := get args "electron" in
    let* electronPath := get args "electronPath" in
    ret {| rq_filename := filename;
           rq_compileAsModule :=
             match compileAsModule with VBool false => false | _ => true end;
           rq_compress := compress;
           rq_electron := or_else electron (VBool (truthy electronPath));
           rq_electronPath := electronPath |}
  else
    ret {| rq_filename := VUndefined; rq_compileAsModule := true;
           rq_compress := VUndefined; rq_electron := VUndefined;
           rq_electronPath := VUndefined |}.

(** [compileFile(args, output)] for a request that asks for no loader file
    ([createLoader] and [loaderFilename] unset), so that lines 273 to 275 do
    nothing: the promise it returns, and the disk afterwards.  For a request
    that does ask for a loader this is the function up to line 271 only; the
    whole function is [compileFile_with_loader] below, which runs this step
    and then the loader step.  [events] is
    what the Electron child does if one is spawned.  On line 266 the call is
    [compileElectronCode(code, compress, { electronPath })]; the callee has
    two parameters, so its [options] is the value of [compress] and the
    object literal is dropped. *)
Definition compileFile (disk : Disk) (args output : value)
  (events : list child_event) : promise jsstring * Disk :=
  match
    (let* rq := read_args args in
     match rq_filename rq with
     | VString filename =>
         let* args_output := get args "output" in
         let default := slice_0_neg (length (path_extname filename)) filename
                        ++ COMPILED_EXTNAME in
         match or_else (or_else args_output output) (VString default) with
         | VString compiledFilename =>
             let* bytes := readFileSync disk filename in
             let javascriptCode := utf8_decode bytes in
             let code := strip_sheBang javascriptCode in
             let code := if rq_compileAsModule rq then Module_wrap code else code in
             ret (rq, compiledFilename, code)
         | other =>
             throw (Error ("output must be a string. " +:+ typeof other
                           +:+ " was given."))
         end
     | other =>
         throw (Error ("filename must be a string. " +:+ typeof other
                       +:+ " was given."))
     end)
  with
  | inl e => (Rejected e, disk)
  | inr (rq, compiledFilename, code) =>
      let bytecodeBuffer :=
        if truthy (rq_electron rq) then
          compileElectronCode (existsSync disk) (VString code) (rq_compress rq) events
        else
          match compileCode (VString code) (rq_compress rq) with
          | inl e => Rejected e
          | inr b => Resolved b
          end in
      match bytecodeBuffer with
      | Pending => (Pending, disk)
      | Rejected e => (Rejected e, disk)
      | Resolved b => (Resolved compiledFilename, writeFileSync disk compiledFilename b)
      end
  end.

End Files.

(** ** Vocabulary of the specification *)

(** The three compatibility buckets, and the one the tests of [fixBytecode]
    pick for a version string. *)
Inductive bucket := LegacyNarrow | ModernBroad | CatchAll.

Definition bucket_of (version : string) : bucket :=
  if is_v8_8_or_v8_9 version then LegacyNarrow
  else if between_12_and_20 (parseFloat (slice_1_5 version)) then ModernBroad
  else CatchAll.

(** Byte ranges a bucket patches, as [(first, past-the-end)] offsets. *)
Definition patched_ranges (b : bucket) : list (nat * nat) :=
  match b with
  | LegacyNarrow => [(16, 20); (20, 24)]
  | ModernBroad => [(12, 16)]
  | CatchAll => [(12, 16); (16, 20)]
  end.

Definition in_range (i : nat) (r : nat * nat) : bool :=
  bool_decide (r.1 <= i < r.2).

Definition in_ranges (i : nat) (rs : list (nat * nat)) : bool :=
  existsb (in_range i) rs.

(** Events that call [resolve] or [reject]. *)
Definition settles (ev : child_event) : bool :=
  match ev with
  | StdoutEnd | ChildExit _ | ChildError _ => true
  | _ => false
  end.

Definition is_exit (ev : child_event) : bool :=
  match ev with ChildExit _ => true | _ => false end.

(** Standard output carried by a run of events. *)
Fixpoint stdout_of (events : list child_event) : Buffer :=
  match events with
  | [] => []
  | StdoutData chunk :: rest => chunk ++ stdout_of rest
  | _ :: rest => stdout_of rest
  end.

(** The events before the first settling one, and that one. *)
Fixpoint first_settling (events : list child_event)
  : option (list child_event * child_event) :=
  match events with
  | [] => None
  | ev :: rest =>
      if settles ev then Some ([], ev)
      else match first_settling rest with
           | Some (pre, s) => Some (ev :: pre, s)
           | None => None
           end
  end.

(** The argument of [compileFile] for a source file, a [compress] flag and
    an [electron] flag. *)
Definition compile_args (filename : jsstring) (compress electron : bool) : value :=
  VObject [("filename", VString filename);
           ("compress", VBool compress);
           ("electron", VBool electron)].

(** ** A small host for worked examples *)

Module Demo.

(** Little-endian bytes of a 32-bit number. *)
Definition byte_of (n : N) : byte :=
  default Byte.x00 (Byte.of_N (n mod 256)).

Definition le32 (n : N) : Buffer :=
  [byte_of n; byte_of (n / 256); byte_of (n / 65536); byte_of (n / 16777216)].

(** A cache in the layout the file assumes: magic word, version hash, source
    length, flag hash, payload length, checksum, payload. *)
Definition cache (flags : Buffer) (source : jsstring) : Buffer :=
  [Byte.x93; Byte.x05; Byte.xde; Byte.xc0]
  ++ [Byte.x4e; Byte.x1a; Byte.x7c; Byte.x22]
  ++ le32 (N.of_nat (length source))
  ++ flags
  ++ le32 (N.of_nat (length source))
  ++ [Byte.xa5; Byte.x5a; Byte.x3c; Byte.xc3]
  ++ map byte_of source.

Definition compress (b : Buffer) : Buffer := Byte.xce :: Byte.xb2 :: b.

Definition decompress (v : value) : option Buffer :=
  match v with
  | VBuffer (Byte.xce :: Byte.xb2 :: b) => Some b
  | _ => None
  end.

Definition wrap (code : jsstring) : jsstring :=
  lit "(function (exports, require, module, __filename, __dirname) { "
  ++ code ++ [10%N] ++ lit "});".

(** Extension of a path: from its last dot on. *)
Fixpoint extname (s : jsstring) : jsstring :=
  match s with
  | [] => []
  | c :: rest =>
      match extname rest with
      | [] => if (c =? 46)%N then s else []
      | ext => ext
      end
  end.

Definition host (version : string) (flags : Buffer) : Host := {|
  process_version := version;
  createCachedData := fun source => Some (cache flags source);
  cachedDataRejected := fun source cachedData =>
    negb (bool_decide (subarray 8 12 cachedData = le32 (N.of_nat (length source))));
  brotliCompressSync := compress;
  brotliDecompressSync := decompress;
  electronExecutablePath := Some (lit "/opt/electron");
  path_normalize := fun p => p;
  path_extname := extname;
  Module_wrap := wrap;
  utf8_decode := map Byte.to_N;
  max_string_length := 536870888;
|}.

Definition node18 : Host := host "v18.17.1" [Byte.x11; Byte.x22; Byte.x33; Byte.x44].
Definition node8_9 : Host := host "v8.9.4" [Byte.x11; Byte.x22; Byte.x33; Byte.x44].
Definition node22 : Host := host "v22.3.0" [Byte.x11; Byte.x22; Byte.x33; Byte.x44].


(** A cache made by another build: different flag bytes. *)
Definition foreign_cache : Buffer :=
  cache [Byte.xaa; Byte.xbb; Byte.xcc; Byte.xdd] (lit "1+1").

(** A buffer the validator accepts that stops inside the flag bytes. *)
Definition short_cache : Buffer := take 14 foreign_cache.

Definition disk : Disk :=
  {[ lit "/opt/electron" := [Byte.x7f];
     lit "app.js" := map byte_of (lit "module.exports = 1 + 1") ]}.

End Demo.

(** ** Loader files *)

(** [javascriptCode.match(/^#!.*/)]: the text matched, [None] for [null].
    The dot stops at a line terminator. *)
Fixpoint take_line (s : jsstring) : jsstring :=
  match s with
  | [] => []
  | c :: rest => if is_line_terminator c then [] else c :: take_line rest
  end.

Definition match_sheBang (s : jsstring) : option jsstring :=
  match s with
  | 35%N :: 33%N :: rest => Some (35%N :: 33%N :: take_line rest)
  | _ => None
  end.

(** [lines.join('\n')]. *)
Fixpoint join_lines (lines : list jsstring) : jsstring :=
  match lines with
  | [] => []
  | [line] => line
  | line :: rest => line ++ [10%N] ++ join_lines rest
  end.

(** [names.join(sep)], and the default conversion of an array of strings
    inside a template literal, which joins with a comma. *)
Fixpoint join_with (sep : jsstring) (names : list jsstring) : jsstring :=
  match names with
  | [] => []
  | [name] => name
  | name :: rest => name ++ sep ++ join_with sep rest
  end.

(** [lines.unshift(sheBang, '')] under [if (sheBang)]: [sheBang] is the match
    of [sheBangRegex], an array holding the matched text, or [null]. *)
Definition with_sheBang (sheBang : option jsstring) (lines : list jsstring)
  : list jsstring :=
  match sheBang with
  | Some text => text :: [] :: lines
  | None => lines
  end.

Definition loaderCodeCommonJS (targetPath : jsstring) (sheBang : option jsstring)
  : jsstring :=
  let lines := [ lit "require('bytenode')";
                 [];
                 lit "module.exports = require('" ++ targetPath ++ lit "')" ] in
  join_lines (with_sheBang sheBang lines).

(** [text.replace(pattern, replacement)] with a string pattern: the first
    occurrence is replaced, and in the replacement [$$], [$&], [$`] and [$']
    stand for a dollar, the matched text, the text before it and the text
    after it.  A string pattern has no capture, so [$1] and the like stay. *)
Fixpoint starts_with (p s : jsstring) : bool :=
  match p, s with
  | [], _ => true
  | _ :: _, [] => false
  | a :: p', b :: s' => (a =? b)%N && starts_with p' s'
  end.

Fixpoint find_first (pattern s : jsstring) : option (jsstring * jsstring) :=
  if starts_with pattern s then Some ([], drop (length pattern) s)
  else match s with
       | [] => None
       | c :: rest =>
           match find_first pattern rest with
           | Some (before, after) => Some (c :: before, after)
           | None => None
           end
       end.

Fixpoint substitution (replacement matched before after : jsstring) : jsstring :=
  match replacement with
  | [] => []
  | c :: rest =>
      if (c =? 36)%N then
        match rest with
        | d :: rest' =>
            if (d =? 36)%N then 36%N :: substitution rest' matched before after
            else if (d =? 38)%N then matched ++ substitution rest' matched before after
            else if (d =? 96)%N then before ++ substitution rest' matched before after
            else if (d =? 39)%N then after ++ substitution rest' matched before after
            else c :: substitution rest matched before after
        | [] => [c]
        end
      else c :: substitution rest matched before after
  end.

Definition replace (pattern replacement s : jsstring) : jsstring :=
  match find_first pattern s with
  | Some (before, after) =>
      before ++ substitution replacement pattern before after ++ after
  | None => s
  end.

(** What the loader functions use of [path], [fs] and [require]. *)
Class Platform := {
  path_dirname : jsstring -> jsstring;
  path_join : jsstring -> jsstring -> jsstring;
  path_relative : jsstring -> jsstring -> jsstring;
  (** [path.parse(p).name]. *)
  path_parse_name : jsstring -> jsstring;
  (** The bytes [fs.writeFileSync] stores for a string. *)
  utf8_encode : jsstring -> Buffer;
  (** [let { default: defaultExport, ...namedExports } = require(p)]: the
      value of [defaultExport] and [Object.keys(namedExports)], or what
      [require] or the destructuring throws. *)
  require_destructured : jsstring -> result (value * list jsstring);
}.

Section Loader.
Context `{H : Host} `{P : Platform}.

Definition loaderCodeModule (targetPath : jsstring) (sheBang : option jsstring)
  (loaderFilePath : jsstring) : result jsstring :=
  let* exported := require_destructured loaderFilePath in
  let '(defaultExport, namedExports) := exported in
  let defaultExport :=
    if truthy defaultExport then lit "default: defaultExport" else [] in
  let lines := [ lit "import { createRequire } from 'node:module'";
                 [];
                 lit "import 'bytenode'";
                 [];
                 [];
                 lit "const require = createRequire(import.meta.url)";
                 [] ] in
  let lines := with_sheBang sheBang lines in
  let exports :=
    if bool_decide (defaultExport = []) then namedExports
    else defaultExport :: namedExports in
  let exports := join_with (lit ", ") exports in
  if bool_decide (exports = []) then
    ret (join_lines (lines ++ [lit "require('" ++ targetPath ++ lit "')"]))
  else
    let lines :=
      lines ++ [lit "const {" ++ exports ++ lit "} = require('" ++ targetPath ++ lit "')";
                []; []] in
    let lines :=
      if bool_decide (defaultExport = []) then lines
      else lines ++ [lit "export default defaultExport"] in
    let lines :=
      if bool_decide (namedExports = []) then lines
      else lines ++ [lit "export { " ++ join_with (lit ",") namedExports ++ lit " }"] in
    ret (join_lines lines).

(** [type === 'module']. *)
Definition is_module (type : value) : bool :=
  match type with
  | VString s => bool_decide (s = lit "module")
  | _ => false
  end.

(** [addLoaderFile(fileToLoad, loaderFilename, type, sheBang)]: the disk
    after the call. *)
Definition addLoaderFile (disk : Disk) (fileToLoad : jsstring)
  (loaderFilename type : value) (sheBang : option jsstring) : result Disk :=
  let* loaderFilePath :=
    match loaderFilename with
    | VBool _ | VUndefined | VString [] =>
        ret (replace (lit ".jsc") (lit ".loader.js") fileToLoad)
    | VString pattern =>
        ret (path_join (path_dirname fileToLoad)
               (replace (lit "%") (path_parse_name fileToLoad) pattern))
    | _ => throw TypeError      (* no [replace] method *)
    end in
  let relativePath := path_relative (path_dirname loaderFilePath) fileToLoad in
  let targetPath := lit "./" ++ relativePath in
  let* code :=
    (if is_module type
     then loaderCodeModule targetPath sheBang loaderFilePath
     else ret (loaderCodeCommonJS targetPath sheBang)) in
  ret (writeFileSync disk loaderFilePath (utf8_encode code)).

(** [createLoader] after lines 222 to 245 of [compileFile], together with
    [loaderFilename]. *)
Definition read_loader_args (args : value) : result (value * value) :=
  let* vars :=
    (if String.eqb (typeof args) "string" then ret (VBool false, VUndefined)
     else if String.eqb (typeof args) "object" then
       let* createLoader := get args "createLoader" in
       let* loaderFilename := get args "loaderFilename" in
       ret (if truthy loaderFilename && negb (truthy createLoader)
            then VBool true else createLoader,
            loaderFilename)
     else ret (VUndefined, VUndefined)) in
  let '(createLoader, loaderFilename) := vars in
  ret (if truthy createLoader && negb (String.eqb (typeof createLoader) "string")
       then VString (lit "commonjs") else createLoader,
       loaderFilename).

(** [compileFile(args, output)] with its last step, lines 273 to 275: once
    the compiled file is written, a set [createLoader] has [addLoaderFile]
    write the loader beside it.  The shebang line handed over is the one
    matched in the source file. *)
Definition compileFile_with_loader (disk : Disk) (args output : value)
  (events : list child_event) : promise jsstring * Disk :=
  match compileFile disk args output events with
  | (Resolved compiledFilename, written) =>
      match
        (let* rq := read_args args in
         let* loader := read_loader_args args in
         let '(createLoader, loaderFilename) := loader in
         if truthy createLoader then
           match rq_filename rq with
           | VString filename =>
               let* bytes := readFileSync disk filename in
               let sheBang := match_sheBang (utf8_decode bytes) in
               addLoaderFile written compiledFilename loaderFilename createLoader
                 sheBang
           | _ => throw TypeError
           end
         else ret written)
      with
      | inl e => (Rejected e, written)
      | inr after => (Resolved compiledFilename, after)
      end
  | other => other
  end.

End Loader.

(** A platform with POSIX-like paths for worked examples. *)
Module DemoPlatform.

(** [s] cut at its last occurrence of [c]: what is before and what is after,
    or [None] when [c] does not occur. *)
Fixpoint split_last (c : N) (s : jsstring) : option (jsstring * jsstring) :=
  match s with
  | [] => None
  | x :: rest =>
      match split_last c rest with
      | Some (before, after) => Some (x :: before, after)
      | None => if (x =? c)%N then Some ([], rest) else None
      end
  end.

Definition dirname (p : jsstring) : jsstring :=
  match split_last 47 p with
  | Some (dir, _) => dir
  | None => lit "."
  end.

Definition basename (p : jsstring) : jsstring :=
  match split_last 47 p with
  | Some (_, base) => base
  | None => p
  end.

Definition name (p : jsstring) : jsstring :=
  match split_last 46 (basename p) with
  | Some (stem, _) => stem
  | None => basename p
  end.

Definition join (a b : jsstring) : jsstring :=
  if bool_decide (a = lit ".") then b else a ++ [47%N] ++ b.

Definition relative (from to : jsstring) : jsstring :=
  if bool_decide (dirname to = from) then basename to else to.

Definition platform : Platform := {|
  path_dirname := dirname;
  path_join := join;
  path_relative := relative;
  path_parse_name := name;
  utf8_encode := map Demo.byte_of;
  require_destructured := fun _ => inl (SystemError "MODULE_NOT_FOUND");
|}.

End DemoPlatform.

(** ** Vocabulary of the further properties *)

(** The byte at an offset as a number, [0] past the end. *)
Definition byte_at (b : Buffer) (i : nat) : N :=
  match b !! i with Some x => Byte.to_N x | None => 0%N end.

(** Offset of the source-length field for a version string. *)
Definition source_length_offset (version : string) : nat :=
  if is_v8_8_or_v8_9 version then 12 else 8.

(** Events that feed the result of [compileElectronCode]: standard output
    and the settling events. *)
Definition feeds_result (ev : child_event) : bool :=
  match ev with
  | StdoutData _ => true
  | _ => settles ev
  end.

(** Number of line terminators of a text. *)
Definition line_breaks (s : jsstring) : nat :=
  length (filter (fun c => is_line_terminator c = true) s).

(** [args.filename] as [compileFile] reads it on lines 222 to 237. *)
Definition filename_of (args : value) : value :=
  match args with
  | VString _ => args
  | VObject fields => field "filename" fields
  | _ => VUndefined
  end.

(** * Properties *)

(** ** Format validator *)

Lemma equals_true (a b : Buffer) : equals a b = true <-> a = b.
Proof. unfold equals. apply bool_decide_eq_true. Qed.

Lemma subarray_2_4_magic (b : Buffer) :
  subarray 2 4 b = MAGIC_NUMBER <->
  b !! 2 = Some Byte.xde /\ b !! 3 = Some Byte.xc0.
Proof.
  unfold subarray, MAGIC_NUMBER.
  destruct b as [|b0 [|b1 [|b2 [|b3 rest]]]]; simpl; try (split; [discriminate | intros [? ?]; discriminate]).
  split.
  - intros [= -> ->]. done.
  - intros [[= ->] [= ->]]. done.
Qed.

Lemma subarray_0_2_zero (b : Buffer) :
  subarray 0 2 b = ZERO_LENGTH_EXTERNAL_REFERENCE_TABLE <->
  b !! 0 = Some Byte.x00 /\ b !! 1 = Some Byte.x00.
Proof.
  unfold subarray, ZERO_LENGTH_EXTERNAL_REFERENCE_TABLE.
  destruct b as [|b0 [|b1 rest]]; simpl; try (split; [discriminate | intros [? ?]; discriminate]).
  split.
  - intros [= -> ->]. done.
  - intros [[= ->] [= ->]]. done.
Qed.

(** C4: a buffer is classified as a valid cache exactly when its bytes at
    offsets 2 and 3 are the magic marker [de c0] and its bytes at offsets 0
    and 1 are not both zero. *)
Theorem isBufferV8Bytecode_iff (buf : Buffer) :
  isBufferV8Bytecode (VBuffer buf) = true <->
  (buf !! 2 = Some Byte.xde /\ buf !! 3 = Some Byte.xc0)
  /\ ~ (buf !! 0 = Some Byte.x00 /\ buf !! 1 = Some Byte.x00).
Proof.
  simpl. rewrite andb_true_iff, negb_true_iff, equals_true.
  rewrite <- subarray_2_4_magic, <- subarray_0_2_zero.
  unfold equals. rewrite bool_decide_eq_false. tauto.
Qed.

(** C10: anything that is not a Buffer, and any Buffer shorter than four
    bytes, is classified invalid: the validator returns [false]. *)
Theorem isBufferV8Bytecode_short (v : value) :
  isBuffer v = false \/ (exists b, v = VBuffer b /\ length b < 4) ->
  isBufferV8Bytecode v = false.
Proof.
  intros [Hnb | (b & -> & Hlen)].
  - destruct v; try reflexivity. discriminate.
  - simpl. apply andb_false_iff. right.
    unfold equals. apply bool_decide_eq_false.
    rewrite subarray_2_4_magic. intros [_ H3].
    apply lookup_lt_Some in H3. lia.
Qed.

Lemma isBufferV8Bytecode_short_witness :
  isBufferV8Bytecode (VString (lit "abcd")) = false
  /\ isBufferV8Bytecode (VBuffer [Byte.x01; Byte.xde; Byte.xc0]) = false.
Proof.
  split.
  - apply (isBufferV8Bytecode_short (VString (lit "abcd"))). left. reflexivity.
  - apply (isBufferV8Bytecode_short (VBuffer [Byte.x01; Byte.xde; Byte.xc0])).
    right. eexists. split; [reflexivity | simpl; lia].
Defined.

(** ** Buffer primitives *)

Lemma length_subarray (s e : nat) (b : Buffer) :
  length (subarray s e b) = min (e - s) (length b - s).
Proof. unfold subarray. rewrite length_take, length_drop. done. Qed.

Lemma lookup_subarray (s e i : nat) (b : Buffer) :
  subarray s e b !! i = if decide (i < e - s) then b !! (s + i) else None.
Proof.
  unfold subarray. case_decide.
  - rewrite lookup_take_lt by done. apply lookup_drop.
  - apply lookup_take_ge. lia.
Qed.

Lemma length_copy (source target : Buffer) (targetStart : nat) :
  length (copy source target targetStart) = length target.
Proof.
  unfold copy. case_decide; [done|].
  rewrite !length_app, !length_take, length_drop. lia.
Qed.

(** Reading a target after [source.copy(target, targetStart)]. *)
Lemma lookup_copy (source target : Buffer) (targetStart i : nat) :
  copy source target targetStart !! i =
  if decide (targetStart <= i < targetStart + length source /\ i < length target)
  then source !! (i - targetStart) else target !! i.
Proof.
  unfold copy. case_decide as Hlen.
  - case_decide as Hi; [lia | done].
  - set (nb := min (length source) (length target - targetStart)).
    destruct (decide (i < targetStart)) as [Hlt | Hge].
    + rewrite lookup_app_l by (rewrite length_take; lia).
      rewrite lookup_take_lt by done. case_decide; [lia | done].
    + rewrite lookup_app_r by (rewrite length_take; lia).
      rewrite length_take, Nat.min_l by lia.
      destruct (decide (i - targetStart < nb)) as [Hin | Hout].
      * rewrite lookup_app_l by (rewrite length_take; lia).
        rewrite lookup_take_lt by done. case_decide; [done | lia].
      * rewrite lookup_app_r by (rewrite length_take; lia).
        rewrite length_take, lookup_drop.
        replace (targetStart + nb + (i - targetStart - min nb (length source)))
          with i by lia.
        case_decide as Hi; [|done].
        exfalso. unfold nb in *. lia.
Qed.

(** Reading a target after [reference.subarray(s, e).copy(target, s)]. *)
Lemma lookup_copy_subarray (s e i : nat) (reference target : Buffer) :
  copy (subarray s e reference) target s !! i =
  if decide (s <= i < e /\ i < length target /\ i < length reference)
  then reference !! i else target !! i.
Proof.
  rewrite lookup_copy, length_subarray.
  case_decide as H1; case_decide as H2; try lia; [|done].
  rewrite lookup_subarray. case_decide; [|lia]. f_equal. lia.
Qed.

(** ** Compatibility fixup *)

Section Fixup.
Context `{H : Host}.

Lemma in_ranges_legacy (i : nat) :
  in_ranges i (patched_ranges LegacyNarrow) = bool_decide (16 <= i < 24).
Proof.
  unfold in_ranges, in_range. simpl.
  repeat case_bool_decide; simpl in *; try reflexivity; lia.
Qed.

Lemma in_ranges_modern (i : nat) :
  in_ranges i (patched_ranges ModernBroad) = bool_decide (12 <= i < 16).
Proof.
  unfold in_ranges, in_range. simpl.
  repeat case_bool_decide; simpl in *; try reflexivity; lia.
Qed.

Lemma in_ranges_catch_all (i : nat) :
  in_ranges i (patched_ranges CatchAll) = bool_decide (12 <= i < 20).
Proof.
  unfold in_ranges, in_range. simpl.
  repeat case_bool_decide; simpl in *; try reflexivity; lia.
Qed.

(** Every byte of the buffer after the fixup: inside a range of the bucket,
    and inside both buffers, it is the byte of the reference; anywhere else
    it is the byte the target had. *)
Lemma fixBytecode_lookup (target dummyBytecode : Buffer) :
  compileCode (VString dummySource) VUndefined = inr dummyBytecode ->
  exists fixed,
    fixBytecode (VBuffer target) = inr fixed
    /\ length fixed = length target
    /\ forall i,
        fixed !! i =
        if decide (in_ranges i (patched_ranges (bucket_of process_version)) = true
                   /\ i < length target /\ i < length dummyBytecode)
        then dummyBytecode !! i else target !! i.
Proof.
  intros Hd. unfold fixBytecode, bucket_of. rewrite Hd. simpl.
  destruct (is_v8_8_or_v8_9 process_version);
    [|destruct (between_12_and_20 _)];
    (eexists; split; [reflexivity|]; split; [by rewrite ?length_copy|]);
    intros i; rewrite ?lookup_copy_subarray, ?length_copy.
  - rewrite in_ranges_legacy.
    repeat case_decide; try case_bool_decide; try done; lia.
  - rewrite in_ranges_modern.
    repeat case_decide; try case_bool_decide; try done; lia.
  - rewrite in_ranges_catch_all.
    repeat case_decide; try case_bool_decide; try done; lia.
Qed.

Lemma fixBytecode_inv (target fixed : Buffer) :
  fixBytecode (VBuffer target) = inr fixed ->
  exists dummyBytecode,
    compileCode (VString dummySource) VUndefined = inr dummyBytecode.
Proof.
  unfold fixBytecode.
  destruct (compileCode (VString dummySource) VUndefined) as [e|d]; [discriminate|].
  eauto.
Qed.

End Fixup.

Lemma in_ranges_elem (i s e : nat) (rs : list (nat * nat)) :
  (s, e) ∈ rs -> s <= i < e -> in_ranges i rs = true.
Proof.
  intros Hin Hi. unfold in_ranges. apply existsb_exists.
  exists (s, e). split; [by apply list_elem_of_In|].
  unfold in_range. by apply bool_decide_eq_true.
Qed.

(** C2, amended: after [fixBytecode] the target keeps its length, and in
    every byte range of the running engine's bucket each byte that lies
    inside both the target and the reference buffer (the one compiled from
    the fixed source by the running engine) is the reference's byte at that
    offset, the other bytes of the range being the target's own.  So, with a
    reference that reaches the end of the range, the range of the target is
    the range of the reference cut to what the target holds, and it is the
    whole range of the reference when the target reaches its end too. *)
Theorem fixBytecode_patched_ranges `{H : Host}
  (target dummyBytecode : Buffer) (s e : nat) :
  compileCode (VString dummySource) VUndefined = inr dummyBytecode ->
  (s, e) ∈ patched_ranges (bucket_of process_version) ->
  exists fixed,
    fixBytecode (VBuffer target) = inr fixed
    /\ length fixed = length target
    /\ (forall i, s <= i < e ->
          fixed !! i =
          if decide (i < length target /\ i < length dummyBytecode)
          then dummyBytecode !! i else target !! i)
    /\ (e <= length dummyBytecode ->
        subarray s e fixed = take (length target - s) (subarray s e dummyBytecode))
    /\ (e <= length target -> e <= length dummyBytecode ->
        subarray s e fixed = subarray s e dummyBytecode).
Proof.
  intros Hd Hin.
  destruct (fixBytecode_lookup target dummyBytecode Hd) as (fixed & Hfix & Hlen & Hlk).
  assert (forall i, s <= i < e ->
            fixed !! i =
            if decide (i < length target /\ i < length dummyBytecode)
            then dummyBytecode !! i else target !! i) as Hbyte.
  { intros i Hi. rewrite Hlk, (in_ranges_elem i s e) by done.
    repeat case_decide; try done; tauto. }
  assert (e <= length dummyBytecode ->
          subarray s e fixed = take (length target - s) (subarray s e dummyBytecode))
    as Hcut.
  { intros Hr. apply list_eq. intros i. rewrite lookup_subarray.
    destruct (decide (i < length target - s)) as [Ht | Ht].
    - rewrite lookup_take_lt by done. rewrite lookup_subarray.
      case_decide as Hi; [|done].
      rewrite Hbyte by lia. case_decide as Hc; [done | lia].
    - rewrite lookup_take_ge by lia.
      case_decide as Hi; [|done].
      rewrite Hbyte by lia. case_decide as Hc; [lia|].
      apply lookup_ge_None. lia. }
  exists fixed. split; [done|]. split; [done|]. split; [done|]. split; [done|].
  intros Ht Hr. rewrite Hcut by done. apply take_ge.
  rewrite length_subarray. lia.
Qed.

Lemma fixBytecode_patched_ranges_witness :
  exists fixed,
    @fixBytecode Demo.node18 (VBuffer Demo.short_cache) = inr fixed
    /\ length fixed = length Demo.short_cache
    /\ (forall i, 12 <= i < 16 ->
          fixed !! i =
          if decide (i < length Demo.short_cache
                     /\ i < length (Demo.cache [Byte.x11; Byte.x22; Byte.x33; Byte.x44]
                                      dummySource))
          then Demo.cache [Byte.x11; Byte.x22; Byte.x33; Byte.x44] dummySource !! i
          else Demo.short_cache !! i)
    /\ (16 <= length (Demo.cache [Byte.x11; Byte.x22; Byte.x33; Byte.x44] dummySource) ->
        subarray 12 16 fixed
        = take (length Demo.short_cache - 12)
            (subarray 12 16
               (Demo.cache [Byte.x11; Byte.x22; Byte.x33; Byte.x44] dummySource)))
    /\ (16 <= length Demo.short_cache ->
        16 <= length (Demo.cache [Byte.x11; Byte.x22; Byte.x33; Byte.x44] dummySource) ->
        subarray 12 16 fixed
        = subarray 12 16
            (Demo.cache [Byte.x11; Byte.x22; Byte.x33; Byte.x44] dummySource)).
Proof.
  apply (@fixBytecode_patched_ranges Demo.node18 Demo.short_cache
           (Demo.cache [Byte.x11; Byte.x22; Byte.x33; Byte.x44] dummySource) 12 16).
  - reflexivity.
  - vm_compute. apply list_elem_of_here.
Defined.

(** On the 14-byte buffer of the counterexample below the two bytes that
    exist in the range 12-15 change from the foreign flags to those of the
    reference. *)
Example fixBytecode_short_target_bytes :
  subarray 12 16 Demo.short_cache = [Byte.xaa; Byte.xbb]
  /\ exists fixed,
      @fixBytecode Demo.node18 (VBuffer Demo.short_cache) = inr fixed
      /\ subarray 12 16 fixed = [Byte.x11; Byte.x22].
Proof. split; [reflexivity|]. eexists. split; reflexivity. Qed.

(** C2 as stated fails on a buffer the validator accepts that is shorter than
    the header: 14 bytes under Node 18 leave the range 12-15 of the target
    two bytes long, while the reference has four bytes there. *)
Lemma fixBytecode_short_target_counterexample :
  isBufferV8Bytecode (VBuffer Demo.short_cache) = true
  /\ patched_ranges (bucket_of (@process_version Demo.node18)) = [(12, 16)]
  /\ exists dummyBytecode fixed,
      @compileCode Demo.node18 (VString dummySource) VUndefined = inr dummyBytecode
      /\ @fixBytecode Demo.node18 (VBuffer Demo.short_cache) = inr fixed
      /\ subarray 12 16 fixed <> subarray 12 16 dummyBytecode.
Proof.
  split; [reflexivity|]. split; [reflexivity|].
  eexists _, _. split; [reflexivity|]. split; [reflexivity|].
  vm_compute. discriminate.
Qed.

(** C9: [fixBytecode] keeps the length of the buffer and every byte outside
    the ranges of the running engine's bucket, and loading a cache file
    ([runBytecodeFile], the [.jsc] handler) leaves every file on disk as it
    was: the patch is made on the buffer read from the file. *)
Theorem fixBytecode_frame `{H : Host}
  (target fixed : Buffer) (disk : Disk) (filename : value) (path : jsstring) :
  fixBytecode (VBuffer target) = inr fixed ->
  length fixed = length target
  /\ (forall i, in_ranges i (patched_ranges (bucket_of process_version)) = false ->
        fixed !! i = target !! i)
  /\ (runBytecodeFile_script disk filename).2 = disk
  /\ (extension_jsc_script disk path).2 = disk.
Proof.
  intros Hfix.
  destruct (fixBytecode_inv _ _ Hfix) as [d Hd].
  destruct (fixBytecode_lookup target d Hd) as (fixed' & Hfix' & Hlen & Hlk).
  assert (fixed' = fixed) as -> by congruence.
  split; [done|]. split.
  - intros i Hout. rewrite Hlk, Hout. case_decide as Hc; [|done].
    destruct Hc as [? _]. discriminate.
  - split.
    + unfold runBytecodeFile_script. destruct filename; try done.
      by destruct (readFileSync disk s).
    + unfold extension_jsc_script. by destruct (readFileSync disk path).
Qed.

Lemma fixBytecode_frame_witness :
  exists fixed,
    @fixBytecode Demo.node22 (VBuffer Demo.foreign_cache) = inr fixed
    /\ length fixed = length Demo.foreign_cache
    /\ (forall i,
          in_ranges i (patched_ranges (bucket_of (@process_version Demo.node22))) = false ->
          fixed !! i = Demo.foreign_cache !! i)
    /\ (@runBytecodeFile_script Demo.node22 Demo.disk (VString (lit "app.js"))).2 = Demo.disk
    /\ (@extension_jsc_script Demo.node22 Demo.disk (lit "app.js")).2 = Demo.disk.
Proof.
  eexists. split; [reflexivity|].
  apply (@fixBytecode_frame Demo.node22). reflexivity.
Defined.

(** ** Rehydrator *)

Section Placeholder.
Context `{H : Host}.

Lemma js_repeat_length (unit count : N) (text : jsstring) :
  js_repeat unit count = inr text -> N.of_nat (length text) = count.
Proof.
  unfold js_repeat. destruct (count <=? max_string_length)%N; [|discriminate].
  intros [= <-]. rewrite repeat_length. lia.
Qed.

Lemma js_concat_cases (a b : jsstring) :
  js_concat a b =
  if (N.of_nat (length (a ++ b)) <=? max_string_length)%N then inr (a ++ b)
  else inl RangeError.
Proof. unfold js_concat. by rewrite length_app. Qed.

(** What [dummyCode] gives for each declared length. *)
Lemma dummyCode_cases (L : N) :
  dummyCode L =
    (if (L <=? 1)%N then inr []
     else if (L <=? max_string_length)%N
          then inr ([QUOTE] ++ repeat ZERO_WIDTH_SPACE (N.to_nat (L - 2)) ++ [QUOTE])
          else inl RangeError).
Proof.
  unfold dummyCode.
  destruct (N.ltb_spec 1 L) as [Hgt | Hle];
    destruct (N.leb_spec L 1) as [Hle1 | Hgt1]; try lia; [|done].
  unfold js_repeat, ret, throw.
  destruct (N.leb_spec (L - 2) max_string_length) as [Hr | Hr]; cbn [bind].
  - rewrite js_concat_cases.
    destruct (N.leb_spec (N.of_nat (length ([QUOTE] ++ repeat ZERO_WIDTH_SPACE
                                                        (N.to_nat (L - 2)))))
                max_string_length) as [Hc | Hc];
      rewrite length_app, repeat_length in Hc; simpl in Hc; cbn [bind].
    + rewrite js_concat_cases, <- app_assoc.
      destruct (N.leb_spec (N.of_nat (length ([QUOTE] ++ repeat ZERO_WIDTH_SPACE
                                                          (N.to_nat (L - 2)) ++ [QUOTE])))
                  max_string_length) as [Hd | Hd];
        rewrite !length_app, repeat_length in Hd; simpl in Hd;
        destruct (N.leb_spec L max_string_length); try lia; done.
    + destruct (N.leb_spec L max_string_length); [lia | done].
  - destruct (N.leb_spec L max_string_length); [lia | done].
Qed.

End Placeholder.

(** C3, amended: for a declared length [L] from 2 up to the longest string
    the engine builds, the placeholder is a quote, [L - 2] zero width spaces
    and a quote, [L] code units in all; for [L <= 1] it is the empty text,
    which has no code unit; for a longer [L], which the four-byte field can
    hold, building the placeholder throws [RangeError]. *)
Theorem dummyCode_length `{H : Host} (L : N) :
  dummyCode L =
    (if (L <=? 1)%N then inr []
     else if (L <=? max_string_length)%N
          then inr ([QUOTE] ++ repeat ZERO_WIDTH_SPACE (N.to_nat (L - 2)) ++ [QUOTE])
          else inl RangeError)
  /\ match dummyCode L with
     | inr code => N.of_nat (length code) = (if (2 <=? L)%N then L else 0)%N
     | inl e => e = RangeError /\ (1 < L)%N /\ (max_string_length < L)%N
     end.
Proof.
  split; [apply dummyCode_cases|]. rewrite dummyCode_cases.
  destruct (N.leb_spec L 1) as [Hle1 | Hgt1].
  - destruct (N.leb_spec 2 L); [lia | done].
  - destruct (N.leb_spec L max_string_length) as [Hm | Hm]; [|done].
    destruct (N.leb_spec 2 L); [|lia].
    rewrite !length_app, repeat_length. simpl. lia.
Qed.

(** C3 as stated fails at [L = 1]: a cache whose source-length field holds 1
    gets the empty placeholder, of length 0.  It also fails at the top of
    the field: for [L = 2^32 - 1] no placeholder is built. *)
Lemma dummyCode_length_1_counterexample :
  @readSourceHash Demo.node18
     (VBuffer (Demo.cache [Byte.x11; Byte.x22; Byte.x33; Byte.x44] (lit "1")))
   = inr 1%N
  /\ @dummyCode Demo.node18 1 = inr []
  /\ N.of_nat (length (@nil N)) <> 1%N
  /\ @dummyCode Demo.node18 4294967295 = inl RangeError.
Proof.
  split; [reflexivity|]. split; [reflexivity|]. split; [discriminate|].
  reflexivity.
Qed.

Section Rehydrate.
Context `{H : Host}.

(** The source text of a rehydrated unit is the placeholder for the length
    read from the buffer the engine was handed. *)
Lemma generateScript_source (cachedData filename : value) (script : Script) :
  generateScript cachedData filename = inr script ->
  exists L,
    readSourceHash (VBuffer (script_cachedData script)) = inr L
    /\ dummyCode L = inr (script_source script).
Proof.
  unfold generateScript.
  destruct (decompressIfNeeded cachedData) as [e|c]; unfold bind at 1; [discriminate|].
  destruct (fixBytecode c) as [e|fixed]; unfold bind at 1; [discriminate|].
  destruct (readSourceHash (VBuffer fixed)) as [e|L] eqn:HL; unfold bind at 1;
    [discriminate|].
  destruct (dummyCode L) as [e|code] eqn:Hcode; unfold bind at 1; [discriminate|].
  destruct (cachedDataRejected _ _); [discriminate|].
  intros [= <-]. exists L. done.
Qed.

(** A buffer that passes the validator and declares a source longer than
    the engine's longest string makes [generateScript] throw [RangeError]
    before the engine sees the buffer. *)
Lemma generateScript_too_long (target fixed : Buffer) (filename : value) (L : N) :
  isBufferV8Bytecode (VBuffer target) = true ->
  fixBytecode (VBuffer target) = inr fixed ->
  readSourceHash (VBuffer fixed) = inr L ->
  (1 < L)%N -> (max_string_length < L)%N ->
  generateScript (VBuffer target) filename = inl RangeError.
Proof.
  intros Hv Hfix HL H1 Hmax. unfold generateScript, decompressIfNeeded.
  rewrite Hv. unfold ret. cbn [bind]. rewrite Hfix. cbn [bind].
  rewrite HL. cbn [bind]. rewrite dummyCode_cases.
  destruct (N.leb_spec L 1); [lia|].
  destruct (N.leb_spec L max_string_length); [lia | done].
Qed.

Lemma decompressIfNeeded_valid (cachedData : value) :
  isBufferV8Bytecode cachedData = true ->
  decompressIfNeeded cachedData = inr cachedData.
Proof. intros Hv. unfold decompressIfNeeded. by rewrite Hv. Qed.

(** A buffer that is not a cache and that the decompressor refuses leaves
    [generateScript] with the decompressor's exception. *)
Lemma generateScript_zlib_error (cachedData filename : value) :
  isBufferV8Bytecode cachedData = false ->
  brotliDecompressSync cachedData = None ->
  generateScript cachedData filename = inl ZlibError.
Proof.
  intros Hv Hz. unfold generateScript, decompressIfNeeded. by rewrite Hv, Hz.
Qed.

End Rehydrate.

(** C7, amended: a buffer that fails the format check is handed to the
    decompressor.  When the decompressor throws, its exception is the
    result.  When it returns a buffer, that buffer is checked again: if it
    is still invalid the result is the assertion failure "Invalid bytecode
    buffer", and otherwise loading goes on with the decompressed buffer. *)
Theorem generateScript_invalid `{H : Host} (cachedData filename : value) :
  isBufferV8Bytecode cachedData = false ->
  generateScript cachedData filename =
    match brotliDecompressSync cachedData with
    | None => inl ZlibError
    | Some decompressed =>
        if isBufferV8Bytecode (VBuffer decompressed)
        then generateScript (VBuffer decompressed) filename
        else inl (AssertionError "Invalid bytecode buffer")
    end.
Proof.
  intros Hv.
  destruct (brotliDecompressSync cachedData) as [d|] eqn:Hz;
    [|by apply generateScript_zlib_error].
  unfold generateScript at 1. unfold decompressIfNeeded. rewrite Hv, Hz.
  destruct (isBufferV8Bytecode (VBuffer d)) eqn:Hd; [|reflexivity].
  unfold generateScript. by rewrite (decompressIfNeeded_valid _ Hd).
Qed.

Lemma generateScript_invalid_witness :
  @generateScript Demo.node18
     (VBuffer (Demo.compress [Byte.x00; Byte.x00; Byte.xde; Byte.xc0; Byte.x01]))
     VUndefined
  = inl (AssertionError "Invalid bytecode buffer").
Proof.
  exact (@generateScript_invalid Demo.node18
           (VBuffer (Demo.compress [Byte.x00; Byte.x00; Byte.xde; Byte.xc0; Byte.x01]))
           VUndefined eq_refl).
Defined.

(** C7 as stated fails when the decompression attempt itself fails: the empty
    buffer is not a cache and not a Brotli stream, and loading it ends with
    the decompressor's exception, not with the assertion failure. *)
Lemma generateScript_not_brotli_counterexample :
  isBufferV8Bytecode (VBuffer []) = false
  /\ @brotliDecompressSync Demo.node18 (VBuffer []) = None
  /\ @generateScript Demo.node18 (VBuffer []) VUndefined = inl ZlibError
  /\ @generateScript Demo.node18 (VBuffer []) VUndefined
     <> inl (AssertionError "Invalid bytecode buffer").
Proof.
  split; [reflexivity|]. split; [reflexivity|].
  split; [by apply generateScript_zlib_error|].
  rewrite generateScript_zlib_error by reflexivity. discriminate.
Qed.

(** ** Cross-runtime compiler *)

Lemma first_settling_spec (events pre : list child_event) (ev : child_event) :
  first_settling events = Some (pre, ev) <->
  exists post,
    events = pre ++ ev :: post
    /\ forallb (fun e => negb (settles e)) pre = true
    /\ settles ev = true.
Proof.
  revert pre. induction events as [|e rest IH]; intros pre; simpl.
  - split; [discriminate|]. intros (post & Heq & _). by destruct pre.
  - destruct (settles e) eqn:He.
    + split.
      * intros [= <- <-]. exists rest. done.
      * intros (post & Heq & Hpre & Hev). destruct pre as [|p pre]; simpl in *.
        -- by injection Heq as -> _.
        -- injection Heq as -> _. rewrite He in Hpre. discriminate.
    + split.
      * destruct (first_settling rest) as [[pre' s]|] eqn:Hr; [|discriminate].
        intros [= <- <-]. destruct (proj1 (IH pre') eq_refl) as (post & -> & Hq & Hs).
        exists post. simpl. rewrite He. done.
      * intros (post & Heq & Hpre & Hev). destruct pre as [|p pre]; simpl in *.
        -- injection Heq as -> _. congruence.
        -- injection Heq as -> ->. apply andb_true_iff in Hpre as [_ Hpre].
           rewrite (proj2 (IH pre)); [done|]. eauto.
Qed.

Section ElectronFacts.
Context `{H : Host}.

(** A settled promise stays as it is. *)
Lemma run_child_settled_stable (options : value) (events : list child_event)
  (st : electron_state) :
  settled st <> Pending ->
  settled (run_child options events st) = settled st.
Proof.
  revert st. induction events as [|ev rest IH]; intros st Hs; [done|].
  unfold run_child in *. simpl. rewrite IH.
  - destruct ev; simpl; try done; by destruct (settled st).
  - destruct ev; simpl; try done; by destruct (settled st).
Qed.

(** The promise after a run of events, from a pending state: the first
    settling event decides, with the output gathered before it. *)
Lemma run_child_outcome (options : value) (events : list child_event)
  (st : electron_state) :
  settled st = Pending ->
  settled (run_child options events st) =
    match first_settling events with
    | None => Pending
    | Some (pre, ChildError err) => Rejected err
    | Some (pre, _) =>
        Resolved (if options_compress options
                  then brotliCompressSync (data st ++ stdout_of pre)
                  else data st ++ stdout_of pre)
    end.
Proof.
  revert st. induction events as [|ev rest IH]; intros st Hp; [done|].
  change (run_child options (ev :: rest) st)
    with (run_child options rest (on_event options st ev)).
  simpl first_settling. destruct (settles ev) eqn:Hev.
  - rewrite run_child_settled_stable.
    + destruct ev; try discriminate; simpl; rewrite Hp; simpl;
        by rewrite ?app_nil_r.
    + destruct ev; try discriminate; simpl; rewrite Hp; simpl; discriminate.
  - rewrite IH by (destruct ev; try discriminate; done).
    destruct (first_settling rest) as [[pre s]|]; [|done].
    destruct ev; try discriminate; simpl; try done.
    by rewrite <- !app_assoc.
Qed.

(** What [compileElectronCode] returns, in one equation. *)
Lemma compileElectronCode_outcome (exists_ : jsstring -> bool)
  (javascriptCode options : value) (events : list child_event) :
  compileElectronCode exists_ javascriptCode options events =
    match electron_setup exists_ javascriptCode options with
    | inl e => Rejected e
    | inr options' =>
        match first_settling events with
        | None => Pending
        | Some (pre, ChildError err) => Rejected err
        | Some (pre, _) =>
            Resolved (if options_compress options'
                      then brotliCompressSync (stdout_of pre)
                      else stdout_of pre)
        end
    end.
Proof.
  unfold compileElectronCode.
  destruct (electron_setup exists_ javascriptCode options) as [e|options']; [done|].
  by rewrite run_child_outcome.
Qed.

End ElectronFacts.

(** C5, amended: the promise of [compileElectronCode] resolves exactly when
    the setup succeeds and the first event among standard-output end,
    process exit and child error is a standard-output end or a process exit;
    the value is the standard output received before that event, compressed
    once when [options.compress] is set.  The end of the output stream alone
    resolves it. *)
Theorem compileElectronCode_resolves `{H : Host} (exists_ : jsstring -> bool)
  (javascriptCode options : value) (events : list child_event) (v : Buffer) :
  compileElectronCode exists_ javascriptCode options events = Resolved v <->
  exists options' pre ev,
    electron_setup exists_ javascriptCode options = inr options'
    /\ first_settling events = Some (pre, ev)
    /\ (ev = StdoutEnd \/ exists code, ev = ChildExit code)
    /\ v = if options_compress options'
           then brotliCompressSync (stdout_of pre) else stdout_of pre.
Proof.
  rewrite compileElectronCode_outcome. split.
  - destruct (electron_setup _ _ _) as [e|options']; [discriminate|].
    destruct (first_settling events) as [[pre ev]|] eqn:Hf; [|discriminate].
    destruct (proj1 (first_settling_spec _ _ _) Hf) as (_ & _ & _ & Hs).
    destruct ev; try discriminate; intros [= <-];
      exists options', pre; eexists; (split; [done|]); (split; [done|]);
      (split; [|done]); eauto.
  - intros (options' & pre & ev & -> & -> & [-> | [code ->]] & ->); done.
Qed.

(** C5 as stated fails: the end of the output stream resolves the promise
    while the child has not exited, and an exit that comes before the rest
    of the output resolves it with part of the output. *)
Lemma compileElectronCode_resolves_before_exit_counterexample :
  @compileElectronCode Demo.node18 (existsSync Demo.disk) (VString (lit "1+1"))
     VUndefined [StdoutData [Byte.x01; Byte.x02]; StdoutEnd]
   = Resolved [Byte.x01; Byte.x02]
  /\ existsb is_exit [StdoutData [Byte.x01; Byte.x02]; StdoutEnd] = false
  /\ @compileElectronCode Demo.node18 (existsSync Demo.disk) (VString (lit "1+1"))
       VUndefined
       [StdoutData [Byte.x01]; ChildExit 0; StdoutData [Byte.x02]; StdoutEnd]
     = Resolved [Byte.x01].
Proof. split; [reflexivity|]. split; reflexivity. Qed.

(** C6, amended: the promise of [compileElectronCode] rejects exactly when
    the synchronous setup throws or the child's own error event comes before
    the end of standard output and before the exit.  Errors of the output
    streams are logged only, and an exit resolves the promise whatever its
    code. *)
Theorem compileElectronCode_rejects `{H : Host} (exists_ : jsstring -> bool)
  (javascriptCode options : value) (events : list child_event) (e : exn) :
  compileElectronCode exists_ javascriptCode options events = Rejected e <->
  electron_setup exists_ javascriptCode options = inl e
  \/ exists options' pre,
       electron_setup exists_ javascriptCode options = inr options'
       /\ first_settling events = Some (pre, ChildError e).
Proof.
  rewrite compileElectronCode_outcome. split.
  - destruct (electron_setup _ _ _) as [e'|options']; [intros [= ->]; by left|].
    destruct (first_settling events) as [[pre ev]|] eqn:Hf; [|discriminate].
    destruct ev; try discriminate. intros [= ->]. right. eauto.
  - intros [-> | (options' & pre & -> & ->)]; done.
Qed.

(** C6 as stated fails: after a stream error and an exit with code 1 the
    promise is resolved with the output received so far. *)
Lemma compileElectronCode_nonzero_exit_counterexample :
  @compileElectronCode Demo.node18 (existsSync Demo.disk) (VString (lit "function ("))
     VUndefined
     [StdoutData [Byte.x01]; StdoutError (SystemError "EPIPE"); ChildExit 1]
  = Resolved [Byte.x01].
Proof. reflexivity. Qed.

(** ** [compileFile] and the compress flag *)

Section CompileFile.
Context `{H : Host}.

(** In process, a set [compress] flag compresses what the engine produced. *)
Lemma compileFile_in_process_compress (disk : Disk) (filename : jsstring)
  (bytes raw : Buffer) :
  disk !! filename = Some bytes ->
  createCachedData (Module_wrap (strip_sheBang (utf8_decode bytes))) = Some raw ->
  let compiledFilename :=
    slice_0_neg (length (path_extname filename)) filename ++ COMPILED_EXTNAME in
  compileFile disk (compile_args filename true false) VUndefined []
  = (Resolved compiledFilename,
     <[compiledFilename := brotliCompressSync raw]> disk).
Proof.
  intros Hf Hc. unfold compileFile, compile_args, readFileSync. simpl.
  rewrite Hf. simpl. rewrite Hc. reflexivity.
Qed.

(** C8 on the cross-runtime path: whatever the [compress] flag of the
    request, the file written is the standard output of the child as it
    came, without a compression pass.  The flag reaches
    [compileElectronCode] as its [options] argument, a boolean, whose
    [compress] property is undefined. *)
Theorem compileFile_electron_ignores_compress (disk : Disk)
  (filename electron : jsstring) (bytes : Buffer) (compress : bool)
  (events pre : list child_event) (ev : child_event) :
  disk !! filename = Some bytes ->
  electronExecutablePath = Some electron ->
  is_Some (disk !! electron) ->
  first_settling events = Some (pre, ev) ->
  (ev = StdoutEnd \/ exists code, ev = ChildExit code) ->
  let compiledFilename :=
    slice_0_neg (length (path_extname filename)) filename ++ COMPILED_EXTNAME in
  compileFile disk (compile_args filename compress true) VUndefined events
  = (Resolved compiledFilename, <[compiledFilename := stdout_of pre]> disk).
Proof.
  intros Hf He Hx Hs Hev. unfold compileFile, compile_args, readFileSync. simpl.
  rewrite Hf. simpl. rewrite compileElectronCode_outcome, Hs.
  unfold electron_setup. rewrite He.
  assert (existsSync disk electron = true) as Hex
    by (by apply bool_decide_eq_true).
  destruct compress; simpl; rewrite Hex; simpl;
    destruct Hev as [-> | [code ->]]; reflexivity.
Qed.

End CompileFile.

Lemma compileFile_electron_ignores_compress_witness :
  @compileFile Demo.node18 Demo.disk (compile_args (lit "app.js") true true) VUndefined
    [StdoutData [Byte.x93; Byte.x05; Byte.xde; Byte.xc0]; StdoutEnd; ChildExit 0]
  = (Resolved (lit "app.jsc"),
     <[lit "app.jsc" := [Byte.x93; Byte.x05; Byte.xde; Byte.xc0]]> Demo.disk).
Proof.
  apply (@compileFile_electron_ignores_compress Demo.node18 Demo.disk
           (lit "app.js") (lit "/opt/electron")
           (map Demo.byte_of (lit "module.exports = 1 + 1")) true
           [StdoutData [Byte.x93; Byte.x05; Byte.xde; Byte.xc0]; StdoutEnd; ChildExit 0]
           [StdoutData [Byte.x93; Byte.x05; Byte.xde; Byte.xc0]] StdoutEnd).
  - reflexivity.
  - reflexivity.
  - eexists. reflexivity.
  - reflexivity.
  - left. reflexivity.
Defined.

(** ** Buckets of some releases *)

Example bucket_of_releases :
  bucket_of "v8.9.4" = LegacyNarrow
  /\ bucket_of "v12.22.1" = ModernBroad
  /\ bucket_of "v18.17.1" = ModernBroad
  /\ bucket_of "v20.0.0" = ModernBroad
  /\ bucket_of "v20.11.0" = CatchAll
  /\ bucket_of "v22.3.0" = CatchAll
  /\ bucket_of "v10.24.1" = CatchAll.
Proof. repeat split; reflexivity. Qed.

(** * Further properties *)

(** ** The source-length field *)

Lemma byte_at_drop (b : Buffer) (s k : nat) :
  byte_at b (s + k) = byte_at (drop s b) k.
Proof. unfold byte_at. by rewrite lookup_drop. Qed.

Lemma byte_at_bound (b : Buffer) (i : nat) : (byte_at b i <= 255)%N.
Proof.
  unfold byte_at. destruct (b !! i); [apply Byte.to_N_bounded | lia].
Qed.

Lemma reduce_le_field (b : Buffer) (s : nat) :
  reduce_le 0 (subarray s (s + 4) b) 0 =
  (byte_at b s + 256 * byte_at b (s + 1) + 65536 * byte_at b (s + 2)
   + 16777216 * byte_at b (s + 3))%N.
Proof.
  pose proof (byte_at_drop b s 0) as H0. rewrite Nat.add_0_r in H0.
  rewrite H0, !byte_at_drop.
  unfold subarray. replace (s + 4 - s) with 4 by lia.
  destruct (drop s b) as [|x0 [|x1 [|x2 [|x3 rest]]]]; unfold byte_at;
    cbn [take firstn reduce_le lookup list_lookup];
    rewrite ?take_0; cbn [reduce_le];
    change (256 ^ N.of_nat 0)%N with 1%N;
    change (256 ^ N.of_nat 1)%N with 256%N;
    change (256 ^ N.of_nat 2)%N with 65536%N;
    change (256 ^ N.of_nat 3)%N with 16777216%N; lia.
Qed.

Lemma readSourceHash_bytes `{H : Host} (b : Buffer) :
  let o := source_length_offset process_version in
  readSourceHash (VBuffer b) =
  inr (byte_at b o + 256 * byte_at b (o + 1) + 65536 * byte_at b (o + 2)
       + 16777216 * byte_at b (o + 3))%N.
Proof.
  unfold readSourceHash, source_length_offset.
  destruct (is_v8_8_or_v8_9 process_version); unfold ret; f_equal.
  - apply (reduce_le_field b 12).
  - apply (reduce_le_field b 8).
Qed.

(** On every buffer [readSourceHash] returns the little-endian number held
    by the four bytes of the source-length field (offset 8, or 12 under Node
    8.8 and 8.9), a byte past the end of the buffer counting as zero; the
    number is below 2^32. *)
Theorem readSourceHash_little_endian `{H : Host} (b : Buffer) :
  let o := source_length_offset process_version in
  let L := (byte_at b o + 256 * byte_at b (o + 1) + 65536 * byte_at b (o + 2)
            + 16777216 * byte_at b (o + 3))%N in
  readSourceHash (VBuffer b) = inr L /\ (L < 2 ^ 32)%N.
Proof.
  split; [apply readSourceHash_bytes|].
  pose proof (byte_at_bound b (source_length_offset process_version)).
  pose proof (byte_at_bound b (source_length_offset process_version + 1)).
  pose proof (byte_at_bound b (source_length_offset process_version + 2)).
  pose proof (byte_at_bound b (source_length_offset process_version + 3)).
  change (2 ^ 32)%N with 4294967296%N. lia.
Qed.

(** ** More on the fixup *)

Section FixupMore.
Context `{H : Host}.

Lemma fixBytecode_lookup' (target fixed : Buffer) :
  fixBytecode (VBuffer target) = inr fixed ->
  exists dummyBytecode,
    compileCode (VString dummySource) VUndefined = inr dummyBytecode
    /\ length fixed = length target
    /\ forall i,
        fixed !! i =
        if decide (in_ranges i (patched_ranges (bucket_of process_version)) = true
                   /\ i < length target /\ i < length dummyBytecode)
        then dummyBytecode !! i else target !! i.
Proof.
  intros Hfix. destruct (fixBytecode_inv _ _ Hfix) as [d Hd].
  destruct (fixBytecode_lookup target d Hd) as (fixed' & Hfix' & Hlen & Hlk).
  assert (fixed' = fixed) as -> by congruence. eauto.
Qed.

Lemma in_ranges_ge_12 (i : nat) :
  in_ranges i (patched_ranges (bucket_of process_version)) = true -> 12 <= i.
Proof.
  destruct (bucket_of process_version);
    rewrite ?in_ranges_legacy, ?in_ranges_modern, ?in_ranges_catch_all;
    intros Hi%bool_decide_eq_true; lia.
Qed.

Lemma fixBytecode_head (target fixed : Buffer) (i : nat) :
  fixBytecode (VBuffer target) = inr fixed -> i < 12 -> fixed !! i = target !! i.
Proof.
  intros Hfix Hi. destruct (fixBytecode_lookup' _ _ Hfix) as (d & _ & _ & Hlk).
  rewrite Hlk. case_decide as Hc; [|done].
  destruct Hc as [Hc _]. apply in_ranges_ge_12 in Hc. lia.
Qed.

End FixupMore.

Lemma fixBytecode_valid `{H : Host} (target fixed : Buffer) :
  fixBytecode (VBuffer target) = inr fixed ->
  isBufferV8Bytecode (VBuffer fixed) = isBufferV8Bytecode (VBuffer target).
Proof.
  intros Hfix.
  assert (take 4 fixed = take 4 target) as Heq.
  { apply list_eq. intros i. destruct (decide (i < 4)).
    - rewrite !lookup_take_lt by done. apply (fixBytecode_head _ _ _ Hfix). lia.
    - rewrite !lookup_take_ge by lia. done. }
  simpl. unfold subarray.
  replace (take (2 - 0) (drop 0 fixed)) with (take 2 (take 4 fixed))
    by (rewrite take_take; done).
  replace (take (4 - 2) (drop 2 fixed)) with (drop 2 (take 4 fixed))
    by (rewrite skipn_firstn_comm; done).
  rewrite Heq. rewrite take_take, skipn_firstn_comm. done.
Qed.

(** The fixup never changes the verdict of the format validator: it leaves
    the first twelve bytes alone. *)
Theorem fixBytecode_preserves_validity `{H : Host} (target fixed : Buffer) :
  fixBytecode (VBuffer target) = inr fixed ->
  isBufferV8Bytecode (VBuffer fixed) = isBufferV8Bytecode (VBuffer target)
  /\ take 12 fixed = take 12 target.
Proof.
  intros Hfix. split; [by apply fixBytecode_valid|].
  apply list_eq. intros i. destruct (decide (i < 12)).
  - rewrite !lookup_take_lt by done. by apply (fixBytecode_head _ _ _ Hfix).
  - rewrite !lookup_take_ge by lia. done.
Qed.

Lemma fixBytecode_preserves_validity_witness :
  exists fixed,
    @fixBytecode Demo.node18 (VBuffer Demo.foreign_cache) = inr fixed
    /\ isBufferV8Bytecode (VBuffer fixed)
       = isBufferV8Bytecode (VBuffer Demo.foreign_cache)
    /\ take 12 fixed = take 12 Demo.foreign_cache.
Proof.
  eexists. split; [reflexivity|].
  apply (@fixBytecode_preserves_validity Demo.node18). reflexivity.
Defined.

Section FixupField.
Context `{H : Host}.

Lemma fixBytecode_field (target fixed : Buffer) (k : nat) :
  fixBytecode (VBuffer target) = inr fixed ->
  k < 4 ->
  fixed !! (source_length_offset process_version + k)
  = target !! (source_length_offset process_version + k).
Proof.
  intros Hfix Hk. destruct (fixBytecode_lookup' _ _ Hfix) as (d & _ & _ & Hlk).
  rewrite Hlk. case_decide as Hc; [|done].
  destruct Hc as [Hc _]. revert Hc.
  unfold source_length_offset, bucket_of.
  destruct (is_v8_8_or_v8_9 process_version);
    [|destruct (between_12_and_20 _)];
    rewrite ?in_ranges_legacy, ?in_ranges_modern, ?in_ranges_catch_all;
    intros Hi%bool_decide_eq_true; lia.
Qed.

End FixupField.

(** The fixup never changes the declared source length: the source-length
    field lies outside the ranges of every bucket. *)
Theorem fixBytecode_preserves_source_length `{H : Host} (target fixed : Buffer) :
  fixBytecode (VBuffer target) = inr fixed ->
  readSourceHash (VBuffer fixed) = readSourceHash (VBuffer target).
Proof.
  intros Hfix. rewrite !readSourceHash_bytes. cbv zeta.
  pose proof (fixBytecode_field _ _ 0 Hfix) as H0.
  pose proof (fixBytecode_field _ _ 1 Hfix) as H1.
  pose proof (fixBytecode_field _ _ 2 Hfix) as H2.
  pose proof (fixBytecode_field _ _ 3 Hfix) as H3.
  rewrite Nat.add_0_r in H0.
  unfold byte_at. rewrite H0, H1, H2, H3 by lia. done.
Qed.

Lemma fixBytecode_preserves_source_length_witness :
  exists fixed,
    @fixBytecode Demo.node8_9 (VBuffer Demo.foreign_cache) = inr fixed
    /\ @readSourceHash Demo.node8_9 (VBuffer fixed)
       = @readSourceHash Demo.node8_9 (VBuffer Demo.foreign_cache).
Proof.
  eexists. split; [reflexivity|].
  apply (@fixBytecode_preserves_source_length Demo.node8_9). reflexivity.
Defined.

(** Running the fixup twice gives what running it once gives. *)
Theorem fixBytecode_idempotent `{H : Host} (target fixed : Buffer) :
  fixBytecode (VBuffer target) = inr fixed ->
  fixBytecode (VBuffer fixed) = inr fixed.
Proof.
  intros Hfix. destruct (fixBytecode_lookup' _ _ Hfix) as (d & Hd & Hlen & Hlk).
  destruct (fixBytecode_lookup fixed d Hd) as (again & Hagain & Hlen' & Hlk').
  rewrite Hagain. f_equal. apply list_eq. intros i.
  rewrite Hlk', Hlk, Hlen. repeat case_decide; done.
Qed.

Lemma fixBytecode_idempotent_witness :
  exists fixed,
    @fixBytecode Demo.node22 (VBuffer Demo.foreign_cache) = inr fixed
    /\ @fixBytecode Demo.node22 (VBuffer fixed) = inr fixed.
Proof.
  eexists. split; [reflexivity|].
  apply (@fixBytecode_idempotent Demo.node22 Demo.foreign_cache). reflexivity.
Defined.

(** A buffer that already carries the reference's bytes in the ranges of the
    bucket comes out of the fixup unchanged; so does the reference buffer
    itself. *)
Theorem fixBytecode_same_engine `{H : Host} (target dummyBytecode : Buffer) :
  compileCode (VString dummySource) VUndefined = inr dummyBytecode ->
  (forall i, in_ranges i (patched_ranges (bucket_of process_version)) = true ->
             i < length target -> i < length dummyBytecode ->
             target !! i = dummyBytecode !! i) ->
  fixBytecode (VBuffer target) = inr target
  /\ fixBytecode (VBuffer dummyBytecode) = inr dummyBytecode.
Proof.
  intros Hd Hsame. split.
  - destruct (fixBytecode_lookup target _ Hd) as (fixed & -> & _ & Hlk).
    f_equal. apply list_eq. intros i. rewrite Hlk.
    case_decide as Hc; [|done]. destruct Hc as (? & ? & ?). symmetry. auto.
  - destruct (fixBytecode_lookup dummyBytecode _ Hd) as (fixed & -> & _ & Hlk).
    f_equal. apply list_eq. intros i. rewrite Hlk. by case_decide.
Qed.

Lemma fixBytecode_same_engine_witness :
  @fixBytecode Demo.node18
     (VBuffer (Demo.cache [Byte.x11; Byte.x22; Byte.x33; Byte.x44] (lit "1+1")))
   = inr (Demo.cache [Byte.x11; Byte.x22; Byte.x33; Byte.x44] (lit "1+1"))
  /\ @fixBytecode Demo.node18
       (VBuffer (Demo.cache [Byte.x11; Byte.x22; Byte.x33; Byte.x44] dummySource))
     = inr (Demo.cache [Byte.x11; Byte.x22; Byte.x33; Byte.x44] dummySource).
Proof.
  apply (@fixBytecode_same_engine Demo.node18); [reflexivity|].
  intros i Hi _ _. change (bucket_of process_version) with ModernBroad in Hi.
  rewrite in_ranges_modern in Hi. apply bool_decide_eq_true in Hi.
  destruct i as [|i]; [lia|]. do 11 (destruct i as [|i]; [lia|]).
  do 4 (destruct i as [|i]; [reflexivity|]). lia.
Defined.

(** ** More on rehydration *)

Section RehydrateMore.
Context `{H : Host}.

Lemma decompressIfNeeded_inr (cachedData checked : value) :
  decompressIfNeeded cachedData = inr checked ->
  isBufferV8Bytecode checked = true.
Proof.
  unfold decompressIfNeeded.
  destruct (isBufferV8Bytecode cachedData) eqn:Hv; [by intros [= <-]|].
  destruct (brotliDecompressSync cachedData) as [d|]; [|discriminate].
  destruct (isBufferV8Bytecode (VBuffer d)) eqn:Hd; [|discriminate].
  by intros [= <-].
Qed.

End RehydrateMore.

(** A unit that [generateScript] returns holds a buffer the validator
    accepts, which the engine did not reject for the placeholder of the
    unit, and carries the file name it was given. *)
Theorem generateScript_success `{H : Host} (cachedData filename : value)
  (script : Script) :
  generateScript cachedData filename = inr script ->
  isBufferV8Bytecode (VBuffer (script_cachedData script)) = true
  /\ cachedDataRejected (script_source script) (script_cachedData script) = false
  /\ script_filename script = filename.
Proof.
  unfold generateScript.
  destruct (decompressIfNeeded cachedData) as [e|c] eqn:Hc; unfold bind at 1;
    [discriminate|].
  apply decompressIfNeeded_inr in Hc.
  destruct (fixBytecode c) as [e|fixed] eqn:Hfix; unfold bind at 1; [discriminate|].
  destruct c; try discriminate.
  destruct (readSourceHash (VBuffer fixed)) as [e|L]; unfold bind at 1;
    [discriminate|].
  destruct (dummyCode L) as [e|code]; unfold bind at 1; [discriminate|].
  destruct (cachedDataRejected _ _) eqn:Hr; [discriminate|].
  intros [= <-]. cbn [script_cachedData script_source script_filename].
  rewrite (fixBytecode_valid _ _ Hfix). done.
Qed.

Lemma generateScript_success_witness :
  exists script,
    @generateScript Demo.node18 (VBuffer Demo.foreign_cache) (VString (lit "app.jsc"))
    = inr script
    /\ isBufferV8Bytecode (VBuffer (script_cachedData script)) = true
    /\ @cachedDataRejected Demo.node18 (script_source script) (script_cachedData script)
       = false
    /\ script_filename script = VString (lit "app.jsc").
Proof.
  eexists. split; [reflexivity|].
  apply (@generateScript_success Demo.node18 (VBuffer Demo.foreign_cache)).
  reflexivity.
Defined.

(** Compiling with the compress flag and loading the result gives the unit
    that loading the uncompressed compilation gives, as long as the
    decompressor undoes the compressor, the engine's output passes the
    validator and its compressed form does not. *)
Theorem compileCode_compress_load `{H : Host} (source : jsstring)
  (packed : Buffer) (filename : value) :
  (forall b, brotliDecompressSync (VBuffer (brotliCompressSync b)) = Some b) ->
  compileCode (VString source) (VBool true) = inr packed ->
  isBufferV8Bytecode (VBuffer packed) = false ->
  exists raw,
    compileCode (VString source) (VBool false) = inr raw
    /\ packed = brotliCompressSync raw
    /\ (isBufferV8Bytecode (VBuffer raw) = true ->
        generateScript (VBuffer packed) filename
        = generateScript (VBuffer raw) filename).
Proof.
  intros Hinv Hc Hp. unfold compileCode in *.
  destruct (createCachedData source) as [raw|]; [|discriminate].
  simpl in Hc. injection Hc as <-.
  exists raw. split; [done|]. split; [done|]. intros Hr.
  unfold generateScript, decompressIfNeeded. by rewrite Hp, Hinv, Hr.
Qed.

Lemma compileCode_compress_load_witness :
  exists raw,
    @compileCode Demo.node18 (VString (lit "1+1")) (VBool false) = inr raw
    /\ Demo.compress (Demo.cache [Byte.x11; Byte.x22; Byte.x33; Byte.x44] (lit "1+1"))
       = @brotliCompressSync Demo.node18 raw
    /\ (isBufferV8Bytecode (VBuffer raw) = true ->
        @generateScript Demo.node18
          (VBuffer (Demo.compress
                      (Demo.cache [Byte.x11; Byte.x22; Byte.x33; Byte.x44] (lit "1+1"))))
          VUndefined
        = @generateScript Demo.node18 (VBuffer raw) VUndefined).
Proof.
  apply (@compileCode_compress_load Demo.node18 (lit "1+1")).
  - intros b. reflexivity.
  - reflexivity.
  - reflexivity.
Defined.

(** ** Buckets by release number *)

Lemma digit_of_range (a : ascii) (d : Z) :
  digit_of a = Some d -> (0 <= d <= 9)%Z.
Proof.
  unfold digit_of.
  destruct (48 <=? Z.of_N (N_of_ascii a))%Z eqn:H1;
    destruct (Z.of_N (N_of_ascii a) <=? 57)%Z eqn:H2; simpl; try discriminate.
  intros [= <-]. lia.
Qed.

Lemma digit_not_dot (a : ascii) (d : Z) :
  digit_of a = Some d -> Ascii.eqb a "." = false /\ a <> "."%char.
Proof.
  intros Hd. assert (a <> "."%char) as Hne by (intros ->; discriminate).
  split; [|done]. by apply Ascii.eqb_neq.
Qed.

Lemma prefix_cons (a b : ascii) (s t : string) :
  String.prefix (String a s) (String b t)
  = if Ascii.eqb a b then String.prefix s t else false.
Proof.
  simpl. destruct (ascii_dec a b) as [->|Hne].
  - by rewrite Ascii.eqb_refl.
  - by rewrite (proj2 (Ascii.eqb_neq a b) Hne).
Qed.

(** For a release ["vXY.Z..."] with a two-digit major number [XY] and a minor
    number starting with the digit [Z], the modern bucket is chosen exactly
    when [XY] is 12 to 19, or [XY] is 20 and [Z] is 0; every other such
    release, Node 20.1 and later included, gets the catch-all bucket. *)
Theorem bucket_of_two_digit_major (a1 a2 c : ascii) (d1 d2 f : Z) (rest : string) :
  digit_of a1 = Some d1 ->
  digit_of a2 = Some d2 ->
  digit_of c = Some f ->
  bucket_of (String "v" (String a1 (String a2 (String "." (String c rest))))) =
  if decide ((12 <= 10 * d1 + d2 <= 19)%Z \/ ((10 * d1 + d2 = 20)%Z /\ f = 0%Z))
  then ModernBroad else CatchAll.
Proof.
  intros H1 H2 Hc.
  pose proof (digit_of_range _ _ H1). pose proof (digit_of_range _ _ H2).
  pose proof (digit_of_range _ _ Hc).
  destruct (digit_not_dot _ _ H2) as [Hdot _].
  unfold bucket_of, is_v8_8_or_v8_9, startsWith.
  assert (forall x, String.prefix (String "v" (String "8" (String "." x)))
            (String "v" (String a1 (String a2 (String "." (String c rest)))))
          = false) as Hpre.
  { intros x. rewrite !prefix_cons, (Ascii.eqb_sym "." a2), Hdot.
    by destruct (Ascii.eqb "v" "v"), (Ascii.eqb "8" a1). }
  rewrite !Hpre.
  cbn [orb slice_1_5 String.substring].
  replace (String.substring 0 0 rest) with ""%string by (by destruct rest).
  unfold parseFloat. cbn [digits].
  rewrite H1, H2. change (digit_of ".") with (@None Z). cbn iota beta.
  rewrite Ascii.eqb_refl. cbn [digits]. rewrite Hc. cbn [digits].
  destruct (decide (2 = 0 /\ 1 = 0)) as [[? _]|_]; [lia|].
  unfold between_12_and_20, Qle_bool. cbn.
  case_decide as Hd.
  - replace (_ && _) with true; [done|]. symmetry. apply andb_true_iff.
    split; apply Z.leb_le; lia.
  - replace (_ && _) with false; [done|]. symmetry. apply andb_false_iff.
    rewrite !Z.leb_gt. lia.
Qed.

Lemma bucket_of_two_digit_major_witness :
  bucket_of "v20.11.0" = CatchAll.
Proof.
  exact (bucket_of_two_digit_major "2" "0" "1" 2 0 1 "1.0" eq_refl eq_refl eq_refl).
Defined.

(** ** More on the cross-runtime compiler *)

Lemma first_settling_None (events : list child_event) :
  first_settling events = None <->
  forallb (fun e => negb (settles e)) events = true.
Proof.
  induction events as [|ev rest IH]; simpl; [done|].
  destruct (settles ev); simpl; [split; discriminate|].
  rewrite <- IH. destruct (first_settling rest) as [[pre s]|]; split; done.
Qed.

Lemma first_settling_filter (events : list child_event) :
  first_settling (filter (fun e => feeds_result e = true) events) =
  match first_settling events with
  | Some (pre, ev) => Some (filter (fun e => feeds_result e = true) pre, ev)
  | None => None
  end.
Proof.
  induction events as [|ev rest IH]; [done|].
  rewrite filter_cons. simpl first_settling at 2.
  destruct (settles ev) eqn:Hs.
  - rewrite decide_True by (destruct ev; done). simpl. by rewrite Hs.
  - destruct (decide (feeds_result ev = true)) as [Hf|Hf].
    + simpl. rewrite Hs, IH. by destruct (first_settling rest) as [[pre s]|];
        [rewrite filter_cons, decide_True by done|].
    + rewrite IH. destruct (first_settling rest) as [[pre s]|]; [|done].
      by rewrite filter_cons, decide_False by done.
Qed.

Lemma stdout_of_filter (events : list child_event) :
  stdout_of (filter (fun e => feeds_result e = true) events) = stdout_of events.
Proof.
  induction events as [|ev rest IH]; [done|].
  rewrite filter_cons. destruct ev; simpl; rewrite ?IH; try done;
    case_decide; simpl; by rewrite ?IH.
Qed.

Section ElectronMore.
Context `{H : Host}.

Lemma run_child_app (options : value) (events more : list child_event)
  (st : electron_state) :
  run_child options (events ++ more) st
  = run_child options more (run_child options events st).
Proof. unfold run_child. apply fold_left_app. Qed.

End ElectronMore.

(** The promise stays pending exactly when the setup succeeds and the child
    never ends its output, exits or reports an error: nothing times out. *)
Theorem compileElectronCode_pending `{H : Host} (exists_ : jsstring -> bool)
  (javascriptCode options : value) (events : list child_event) :
  compileElectronCode exists_ javascriptCode options events = Pending <->
  (exists options', electron_setup exists_ javascriptCode options = inr options')
  /\ forallb (fun e => negb (settles e)) events = true.
Proof.
  rewrite compileElectronCode_outcome, <- first_settling_None. split.
  - destruct (electron_setup _ _ _) as [e|options']; [discriminate|].
    destruct (first_settling events) as [[pre ev]|]; [|eauto].
    destruct ev; discriminate.
  - intros [[options' ->] ->]. done.
Qed.

(** Once the promise is settled, nothing the child does later changes it. *)
Theorem compileElectronCode_settles_once `{H : Host} (exists_ : jsstring -> bool)
  (javascriptCode options : value) (events more : list child_event) :
  compileElectronCode exists_ javascriptCode options events <> Pending ->
  compileElectronCode exists_ javascriptCode options (events ++ more)
  = compileElectronCode exists_ javascriptCode options events.
Proof.
  unfold compileElectronCode.
  destruct (electron_setup _ _ _) as [e|options']; [done|].
  intros Hs. rewrite run_child_app. by apply run_child_settled_stable.
Qed.

Lemma compileElectronCode_settles_once_witness :
  @compileElectronCode Demo.node18 (existsSync Demo.disk) (VString (lit "1+1"))
    VUndefined ([StdoutData [Byte.x01]; ChildExit 0]
                ++ [StdoutData [Byte.x02]; ChildError (SystemError "EPIPE"); StdoutEnd])
  = @compileElectronCode Demo.node18 (existsSync Demo.disk) (VString (lit "1+1"))
      VUndefined [StdoutData [Byte.x01]; ChildExit 0].
Proof.
  apply (@compileElectronCode_settles_once Demo.node18). discriminate.
Defined.

(** Standard error, stream errors and messages of the child are diagnostics
    only: dropping them from what the child does leaves the promise as it
    is. *)
Theorem compileElectronCode_diagnostics_ignored `{H : Host}
  (exists_ : jsstring -> bool) (javascriptCode options : value)
  (events : list child_event) :
  compileElectronCode exists_ javascriptCode options
    (filter (fun e => feeds_result e = true) events)
  = compileElectronCode exists_ javascriptCode options events.
Proof.
  rewrite !compileElectronCode_outcome, first_settling_filter.
  destruct (electron_setup _ _ _) as [e|options']; [done|].
  destruct (first_settling events) as [[pre ev]|]; [|done].
  by rewrite stdout_of_filter.
Qed.

(** The result depends on the bytes of standard output, not on how the
    stream cuts them into chunks. *)
Theorem compileElectronCode_chunking `{H : Host} (exists_ : jsstring -> bool)
  (javascriptCode options : value) (before after : list child_event)
  (a b : Buffer) :
  compileElectronCode exists_ javascriptCode options
    (before ++ StdoutData (a ++ b) :: after)
  = compileElectronCode exists_ javascriptCode options
      (before ++ StdoutData a :: StdoutData b :: after).
Proof.
  unfold compileElectronCode.
  destruct (electron_setup _ _ _) as [e|options']; [done|].
  rewrite !run_child_app. unfold run_child. simpl. by rewrite app_assoc.
Qed.



(** ** More on [compileFile] *)

Section CompileFileMore.
Context `{H : Host}.

Lemma compileFile_string (disk : Disk) (filename : jsstring) (bytes raw : Buffer)
  (output : value) (events : list child_event) :
  disk !! filename = Some bytes ->
  createCachedData (Module_wrap (strip_sheBang (utf8_decode bytes))) = Some raw ->
  truthy output = false ->
  let compiledFilename :=
    slice_0_neg (length (path_extname filename)) filename ++ COMPILED_EXTNAME in
  compileFile disk (VString filename) output events
  = (Resolved compiledFilename, <[compiledFilename := raw]> disk).
Proof.
  intros Hf Hc Ho. unfold compileFile, readFileSync. simpl.
  unfold or_else at 2. simpl. unfold or_else. rewrite Ho. simpl.
  rewrite Hf. simpl. rewrite Hc. reflexivity.
Qed.

Lemma compileFile_cases (disk : Disk) (args output : value)
  (events : list child_event) :
  (exists name b,
     compileFile disk args output events = (Resolved name, <[name := b]> disk))
  \/ (exists p, compileFile disk args output events = (p, disk)
                /\ forall name, p <> Resolved name).
Proof.
  unfold compileFile.
  match goal with
  | |- context [match ?m with inl _ => _ | inr _ => _ end] =>
      destruct m as [e | [[rq name] code]]
  end; [right; eexists; split; [reflexivity | discriminate]|].
  destruct (truthy (rq_electron rq)).
  - destruct (compileElectronCode _ _ _ _) as [|b|e].
    + right. eexists. split; [reflexivity | discriminate].
    + left. eauto.
    + right. eexists. split; [reflexivity | discriminate].
  - destruct (compileCode _ _) as [e|b].
    + right. eexists. split; [reflexivity | discriminate].
    + left. eauto.
Qed.

End CompileFileMore.

(** [compileFile(path)] with a string argument compiles in process, wraps
    the source as a module, does not compress, spawns no child, and writes
    the engine's output beside the source under the name with the extension
    replaced by [.jsc]. *)
Theorem compileFile_string_arg `{H : Host} (disk : Disk) (filename stem : jsstring)
  (bytes raw : Buffer) (events : list child_event) :
  filename = stem ++ path_extname filename ->
  path_extname filename <> [] ->
  disk !! filename = Some bytes ->
  createCachedData (Module_wrap (strip_sheBang (utf8_decode bytes))) = Some raw ->
  compileFile disk (VString filename) VUndefined events
  = (Resolved (stem ++ lit ".jsc"), <[stem ++ lit ".jsc" := raw]> disk).
Proof.
  intros Hstem Hext Hf Hc.
  rewrite (compileFile_string disk filename bytes raw) by done.
  unfold slice_0_neg. rewrite decide_False by (by destruct (path_extname filename)).
  assert (take (length filename - length (path_extname filename)) filename = stem)
    as ->; [|done].
  rewrite Hstem at 1 3. rewrite length_app.
  replace (length stem + length (path_extname filename)
           - length (path_extname filename)) with (length stem) by lia.
  by rewrite take_app_length.
Qed.

Lemma compileFile_string_arg_witness :
  @compileFile Demo.node18 Demo.disk (VString (lit "app.js")) VUndefined []
  = (Resolved (lit "app" ++ lit ".jsc"),
     <[lit "app" ++ lit ".jsc" :=
         Demo.cache [Byte.x11; Byte.x22; Byte.x33; Byte.x44]
           (Demo.wrap (lit "module.exports = 1 + 1"))]> Demo.disk).
Proof.
  apply (@compileFile_string_arg Demo.node18 Demo.disk (lit "app.js") (lit "app")
           (map Demo.byte_of (lit "module.exports = 1 + 1"))).
  - reflexivity.
  - discriminate.
  - reflexivity.
  - reflexivity.
Defined.

(** A source file without extension is compiled to the file named [.jsc]:
    [filename.slice(0, -0)] is the empty string. *)
Theorem compileFile_no_extension `{H : Host} (disk : Disk) (filename : jsstring)
  (bytes raw : Buffer) (events : list child_event) :
  path_extname filename = [] ->
  disk !! filename = Some bytes ->
  createCachedData (Module_wrap (strip_sheBang (utf8_decode bytes))) = Some raw ->
  compileFile disk (VString filename) VUndefined events
  = (Resolved (lit ".jsc"), <[lit ".jsc" := raw]> disk).
Proof.
  intros Hext Hf Hc.
  rewrite (compileFile_string disk filename bytes raw) by done.
  rewrite Hext. done.
Qed.

Lemma compileFile_no_extension_witness :
  @compileFile Demo.node18 (<[lit "Makefile" := [Byte.x31]]> Demo.disk)
     (VString (lit "Makefile")) VUndefined []
  = (Resolved (lit ".jsc"),
     <[lit ".jsc" := Demo.cache [Byte.x11; Byte.x22; Byte.x33; Byte.x44]
                       (Demo.wrap (lit "1"))]>
       (<[lit "Makefile" := [Byte.x31]]> Demo.disk)).
Proof.
  apply (@compileFile_no_extension Demo.node18 _ (lit "Makefile") [Byte.x31]).
  - reflexivity.
  - reflexivity.
  - reflexivity.
Defined.

(** [compileFile] writes at most one file: when its promise resolves with a
    name, the disk differs from the one before by that file only, and when
    the promise is rejected or stays pending the disk is untouched. *)
Theorem compileFile_disk `{H : Host} (disk : Disk) (args output : value)
  (events : list child_event) :
  match compileFile disk args output events with
  | (Resolved name, after) => exists b, after = <[name := b]> disk
  | (_, after) => after = disk
  end.
Proof.
  destruct (compileFile_cases disk args output events)
    as [(name & b & ->) | (p & -> & Hp)]; [eauto|].
  destruct p; try done. by destruct (Hp a).
Qed.

(** Without a string [filename] ([args] a number, a boolean, [undefined], a
    buffer, or an object whose [filename] is not a string) the promise is
    rejected with "filename must be a string. T was given.", [T] being the
    type of the [filename] read, and nothing is written. *)
Theorem compileFile_filename_not_string `{H : Host} (disk : Disk)
  (args output : value) (events : list child_event) :
  args <> VNull ->
  typeof (filename_of args) <> "string" ->
  compileFile disk args output events
  = (Rejected (Error ("filename must be a string. " +:+ typeof (filename_of args)
                      +:+ " was given.")), disk).
Proof.
  intros Hnull Hty. unfold compileFile, read_args.
  destruct args; try done; simpl in *.
  destruct (field "filename" fields); try done.
Qed.

Lemma compileFile_filename_not_string_witness :
  @compileFile Demo.node18 Demo.disk (VNumber 42) VUndefined []
  = (Rejected (Error "filename must be a string. undefined was given."), Demo.disk)
  /\ @compileFile Demo.node18 Demo.disk
       (VObject [("filename", VBuffer [Byte.x31])]) VUndefined []
     = (Rejected (Error "filename must be a string. object was given."), Demo.disk).
Proof.
  split.
  - apply (@compileFile_filename_not_string Demo.node18 Demo.disk (VNumber 42));
      discriminate.
  - apply (@compileFile_filename_not_string Demo.node18 Demo.disk
             (VObject [("filename", VBuffer [Byte.x31])])); discriminate.
Defined.

(** ** Shebang lines *)

Lemma take_drop_line (s : jsstring) : take_line s ++ drop_line s = s.
Proof.
  induction s as [|c rest IH]; [done|]. simpl.
  destruct (is_line_terminator c); [done|]. simpl. by rewrite IH.
Qed.

Lemma take_line_app_break (s rest : jsstring) (c : N) :
  is_line_terminator c = true ->
  take_line (take_line s ++ c :: rest) = take_line s.
Proof.
  intros Hc. induction s as [|x s IH]; simpl.
  - by rewrite Hc.
  - destruct (is_line_terminator x) eqn:Hx; simpl; [by rewrite Hc|].
    by rewrite Hx, IH.
Qed.

Lemma line_breaks_drop_line (s : jsstring) :
  line_breaks (drop_line s) = line_breaks s.
Proof.
  unfold line_breaks. induction s as [|c rest IH]; [done|]. simpl.
  destruct (is_line_terminator c) eqn:Hc; [done|].
  rewrite filter_cons, decide_False by congruence. done.
Qed.

Lemma drop_line_head (s : jsstring) :
  match drop_line s with
  | [] => True
  | c :: _ => is_line_terminator c = true
  end.
Proof.
  induction s as [|c rest IH]; [done|]. simpl.
  by destruct (is_line_terminator c) eqn:Hc.
Qed.

Lemma sheBang_cases (s : jsstring) :
  (exists rest, s = 35%N :: 33%N :: rest
                /\ strip_sheBang s = drop_line rest
                /\ match_sheBang s = Some (35%N :: 33%N :: take_line rest))
  \/ (strip_sheBang s = s /\ match_sheBang s = None).
Proof.
  destruct s as [|c0 tl]; [by right|].
  destruct (decide (c0 = 35%N)) as [->|H0].
  - destruct tl as [|c1 rest]; [by right|].
    destruct (decide (c1 = 33%N)) as [->|H1]; [left; eauto|].
    right. destruct c1 as [|p]; [done|].
    do 6 (destruct p as [p|p|]; try done).
  - right. destruct c0 as [|p]; [done|].
    do 6 (destruct p as [p|p|]; try done).
Qed.

(** The shebang line matched by [sheBangRegex] and the text left after
    removing it make up the source again: nothing else is lost. *)
Theorem sheBang_partition (s : jsstring) :
  default [] (match_sheBang s) ++ strip_sheBang s = s.
Proof.
  destruct (sheBang_cases s) as [(rest & -> & -> & ->) | [-> ->]]; [|done].
  simpl. by rewrite take_drop_line.
Qed.

(** Removing the shebang line keeps every line terminator of the source, so
    line numbers in the compiled code are those of the file, and doing it
    twice changes nothing more. *)
Theorem strip_sheBang_line_breaks (s : jsstring) :
  line_breaks (strip_sheBang s) = line_breaks s
  /\ strip_sheBang (strip_sheBang s) = strip_sheBang s.
Proof.
  destruct (sheBang_cases s) as [(rest & -> & Hs & _) | [Hs _]];
    rewrite !Hs; [|done].
  split; [by rewrite line_breaks_drop_line|].
  pose proof (drop_line_head rest) as Hh.
  destruct (sheBang_cases (drop_line rest)) as [(tl & Heq & _) | [Hd _]]; [|done].
  rewrite Heq in Hh. discriminate.
Qed.

(** ** Loader files *)

(** The loader generated for a source starts with the shebang line of that
    source, and has none when the source has none. *)
Theorem loaderCodeCommonJS_sheBang (targetPath source : jsstring) :
  match_sheBang (loaderCodeCommonJS targetPath (match_sheBang source))
  = match_sheBang source.
Proof.
  destruct (sheBang_cases source) as [(rest & -> & _ & Hm) | [_ Hm]]; rewrite Hm.
  - unfold loaderCodeCommonJS, with_sheBang.
    cbn [join_lines app]. cbn [match_sheBang].
    by rewrite take_line_app_break.
  - reflexivity.
Qed.

Lemma find_first_unfold (pattern s : jsstring) :
  find_first pattern s =
  if starts_with pattern s then Some ([], drop (length pattern) s)
  else match s with
       | [] => None
       | c :: rest =>
           match find_first pattern rest with
           | Some (before, after) => Some (c :: before, after)
           | None => None
           end
       end.
Proof. by destruct s. Qed.

Lemma starts_with_app (pattern after : jsstring) :
  starts_with pattern (pattern ++ after) = true.
Proof.
  induction pattern as [|c p IH]; [by destruct after|].
  simpl. by rewrite N.eqb_refl, IH.
Qed.

Lemma find_first_at (pattern before after : jsstring) :
  (forall k, k < length before ->
             starts_with pattern (drop k (before ++ pattern ++ after)) = false) ->
  find_first pattern (before ++ pattern ++ after) = Some (before, after).
Proof.
  induction before as [|c b IH]; intros Hfirst.
  - rewrite find_first_unfold. simpl. rewrite starts_with_app.
    by rewrite drop_app_length.
  - rewrite find_first_unfold.
    pose proof (Hfirst 0 ltac:(simpl; lia)) as H0. rewrite drop_0 in H0.
    rewrite H0. cbn [app].
    rewrite IH; [done|]. intros k Hk. apply (Hfirst (S k)). simpl. lia.
Qed.

Lemma find_first_absent (pattern s : jsstring) :
  (forall k, starts_with pattern (drop k s) = false) ->
  find_first pattern s = None.
Proof.
  induction s as [|c rest IH]; intros Habs.
  - rewrite find_first_unfold. pose proof (Habs 0) as H0.
    rewrite drop_0 in H0. by rewrite H0.
  - rewrite find_first_unfold. pose proof (Habs 0) as H0.
    rewrite drop_0 in H0. rewrite H0.
    rewrite IH; [done|]. intros k. apply (Habs (S k)).
Qed.

Lemma substitution_plain (replacement matched before after : jsstring) :
  36%N ∉ replacement ->
  substitution replacement matched before after = replacement.
Proof.
  induction replacement as [|c rest IH]; intros Hno; [done|].
  cbn [substitution].
  destruct (N.eqb_spec c 36) as [->|Hc]; [exfalso; set_solver|].
  rewrite IH; [done | set_solver].
Qed.

Lemma replace_first_at (pattern replacement before after : jsstring) :
  36%N ∉ replacement ->
  (forall k, k < length before ->
             starts_with pattern (drop k (before ++ pattern ++ after)) = false) ->
  replace pattern replacement (before ++ pattern ++ after)
  = before ++ replacement ++ after.
Proof.
  intros Hplain Hfirst. unfold replace.
  by rewrite find_first_at, substitution_plain.
Qed.

(** [replace] with a replacement free of [$] puts the replacement in the
    place of the first occurrence of the pattern, wherever in the text that
    is, and leaves the rest as it was. *)
Theorem replace_first_occurrence (pattern replacement before after : jsstring) :
  36%N ∉ replacement ->
  (forall k, k < length before ->
             starts_with pattern (drop k (before ++ pattern ++ after)) = false) ->
  replace pattern replacement (before ++ pattern ++ after)
  = before ++ replacement ++ after.
Proof.
  intros Hplain Hfirst. by apply replace_first_at.
Qed.

Lemma replace_first_occurrence_witness :
  replace (lit ".jsc") (lit ".loader.js") (lit "my.jsc.dir/app.jsc")
  = lit "my" ++ lit ".loader.js" ++ lit ".dir/app.jsc".
Proof.
  apply (replace_first_occurrence (lit ".jsc") (lit ".loader.js") (lit "my")
           (lit ".dir/app.jsc")).
  - vm_compute. intros Hin. repeat (apply elem_of_cons in Hin as [Hin|Hin]; [discriminate|]).
    by apply elem_of_nil in Hin.
  - intros k Hk. destruct k as [|[|k]]; [reflexivity | reflexivity | simpl in Hk; lia].
Defined.

Section LoaderFacts.
Context `{P : Platform}.

Lemma addLoaderFile_default_path (disk : Disk) (fileToLoad : jsstring)
  (loaderFilename type : value) (sheBang : option jsstring) :
  loaderFilename = VUndefined \/ (exists b, loaderFilename = VBool b)
  \/ loaderFilename = VString [] ->
  is_module type = false ->
  let loaderFilePath := replace (lit ".jsc") (lit ".loader.js") fileToLoad in
  addLoaderFile disk fileToLoad loaderFilename type sheBang
  = inr (<[loaderFilePath :=
             utf8_encode
               (loaderCodeCommonJS
                  (lit "./" ++ path_relative (path_dirname loaderFilePath) fileToLoad)
                  sheBang)]> disk).
Proof.
  intros Hlf Hty. unfold addLoaderFile.
  destruct Hlf as [-> | [[b ->] | ->]]; simpl; by rewrite Hty.
Qed.

End LoaderFacts.

(** With no loader name given, a CommonJS loader for a file whose name holds
    [.jsc] is written under the name with the first [.jsc] replaced by
    [.loader.js]; the compiled file itself is not touched. *)
Theorem addLoaderFile_default_name `{P : Platform} (disk : Disk)
  (before after : jsstring) (loaderFilename type : value)
  (sheBang : option jsstring) :
  loaderFilename = VUndefined \/ (exists b, loaderFilename = VBool b)
  \/ loaderFilename = VString [] ->
  is_module type = false ->
  (forall k, k < length before ->
             starts_with (lit ".jsc") (drop k (before ++ lit ".jsc" ++ after)) = false) ->
  let fileToLoad := before ++ lit ".jsc" ++ after in
  let loaderFilePath := before ++ lit ".loader.js" ++ after in
  exists written,
    addLoaderFile disk fileToLoad loaderFilename type sheBang = inr written
    /\ written !! loaderFilePath
       = Some (utf8_encode
                 (loaderCodeCommonJS
                    (lit "./" ++ path_relative (path_dirname loaderFilePath) fileToLoad)
                    sheBang))
    /\ written !! fileToLoad = disk !! fileToLoad.
Proof.
  intros Hlf Hty Hfirst fileToLoad loaderFilePath.
  eexists. split; [by apply addLoaderFile_default_path|].
  assert (replace (lit ".jsc") (lit ".loader.js") fileToLoad = loaderFilePath) as ->.
  { apply replace_first_at; [|done]. vm_compute. intros Hin.
    repeat (apply elem_of_cons in Hin as [Hin|Hin]; [discriminate|]).
    by apply elem_of_nil in Hin. }
  split; [by rewrite lookup_insert_eq|].
  rewrite lookup_insert_ne; [done|].
  unfold loaderFilePath, fileToLoad. intros Heq%(f_equal length).
  rewrite !length_app in Heq. simpl in Heq. lia.
Qed.

Lemma addLoaderFile_default_name_witness :
  exists written,
    @addLoaderFile DemoPlatform.platform Demo.disk
      (lit "dist/app" ++ lit ".jsc" ++ []) VUndefined (VString (lit "commonjs")) None
    = inr written
    /\ written !! (lit "dist/app" ++ lit ".loader.js" ++ [])
       = Some (@utf8_encode DemoPlatform.platform
                 (loaderCodeCommonJS
                    (lit "./" ++ @path_relative DemoPlatform.platform
                                   (@path_dirname DemoPlatform.platform
                                      (lit "dist/app" ++ lit ".loader.js" ++ []))
                                   (lit "dist/app" ++ lit ".jsc" ++ []))
                    None))
    /\ written !! (lit "dist/app" ++ lit ".jsc" ++ [])
       = Demo.disk !! (lit "dist/app" ++ lit ".jsc" ++ []).
Proof.
  apply (@addLoaderFile_default_name DemoPlatform.platform Demo.disk
           (lit "dist/app") []).
  - by left.
  - reflexivity.
  - intros k Hk. do 8 (destruct k as [|k]; [reflexivity|]). simpl in Hk. lia.
Defined.

(** With no loader name given, a CommonJS loader for a file whose name does
    not hold [.jsc] is written over that file: the compiled bytes are
    replaced by the loader's source. *)
Theorem addLoaderFile_overwrites `{P : Platform} (disk : Disk)
  (fileToLoad : jsstring) (loaderFilename type : value)
  (sheBang : option jsstring) :
  loaderFilename = VUndefined \/ (exists b, loaderFilename = VBool b)
  \/ loaderFilename = VString [] ->
  is_module type = false ->
  (forall k, starts_with (lit ".jsc") (drop k fileToLoad) = false) ->
  addLoaderFile disk fileToLoad loaderFilename type sheBang
  = inr (<[fileToLoad :=
             utf8_encode
               (loaderCodeCommonJS
                  (lit "./" ++ path_relative (path_dirname fileToLoad) fileToLoad)
                  sheBang)]> disk).
Proof.
  intros Hlf Hty Habs.
  rewrite addLoaderFile_default_path by done.
  unfold replace. by rewrite find_first_absent.
Qed.

Lemma addLoaderFile_overwrites_witness :
  @addLoaderFile DemoPlatform.platform
    (<[lit "app.bin" := [Byte.x93; Byte.x05; Byte.xde; Byte.xc0]]> Demo.disk)
    (lit "app.bin") (VBool true) (VString (lit "commonjs")) None
  = inr (<[lit "app.bin" :=
             @utf8_encode DemoPlatform.platform
               (loaderCodeCommonJS
                  (lit "./" ++ @path_relative DemoPlatform.platform
                                 (@path_dirname DemoPlatform.platform (lit "app.bin"))
                                 (lit "app.bin"))
                  None)]>
           (<[lit "app.bin" := [Byte.x93; Byte.x05; Byte.xde; Byte.xc0]]> Demo.disk)).
Proof.
  apply (@addLoaderFile_overwrites DemoPlatform.platform).
  - right. left. by exists true.
  - reflexivity.
  - intros k. do 8 (destruct k as [|k]; [reflexivity|]). reflexivity.
Defined.

(** ** [compileFile] and its loader *)

(** Without [createLoader] and [loaderFilename] (a string argument, or an
    object where both are unset or falsy) [compileFile] writes the compiled
    file and nothing else. *)
Theorem compileFile_with_loader_unset `{H : Host} `{P : Platform} (disk : Disk)
  (args output : value) (events : list child_event) :
  (forall fields, args = VObject fields ->
     truthy (field "createLoader" fields) = false
     /\ truthy (field "loaderFilename" fields) = false) ->
  compileFile_with_loader disk args output events
  = compileFile disk args output events.
Proof.
  intros Hunset. unfold compileFile_with_loader.
  destruct (compileFile_cases disk args output events)
    as [(name & b & Heq) | (p & Heq & Hp)]; rewrite Heq.
  - destruct args as [| | | |s| |fields];
      try (unfold compileFile, read_args in Heq; simpl in Heq; discriminate).
    + reflexivity.
    + destruct (Hunset fields eq_refl) as [Hc Hl].
      unfold read_args, read_loader_args. simpl. rewrite Hl, Hc. simpl.
      rewrite Hc. simpl. rewrite Hc. reflexivity.
  - destruct p; try done. by destruct (Hp a).
Qed.

Lemma compileFile_with_loader_unset_witness :
  @compileFile_with_loader Demo.node18 DemoPlatform.platform Demo.disk
    (compile_args (lit "app.js") true false) VUndefined []
  = @compileFile Demo.node18 Demo.disk
      (compile_args (lit "app.js") true false) VUndefined [].
Proof.
  apply (@compileFile_with_loader_unset Demo.node18 DemoPlatform.platform).
  intros fields [= <-]. split; reflexivity.
Defined.

(** A [loaderFilename] that is a non-zero number has no [replace] method:
    the promise of [compileFile] is rejected with a [TypeError], after the
    compiled file has been written, and the file stays. *)
Theorem compileFile_loader_failure `{H : Host} `{P : Platform} (disk written : Disk)
  (fields : list (string * value)) (output : value) (events : list child_event)
  (name : jsstring) (n : Z) :
  field "loaderFilename" fields = VNumber n ->
  n <> 0%Z ->
  compileFile disk (VObject fields) output events = (Resolved name, written) ->
  compileFile_with_loader disk (VObject fields) output events
  = (Rejected TypeError, written)
  /\ is_Some (written !! name).
Proof.
  intros Hl Hn Hc.
  assert (is_Some (written !! name)) as Hw.
  { destruct (compileFile_cases disk (VObject fields) output events)
      as [(name' & b & Heq) | (p & Heq & Hp)]; rewrite Heq in Hc.
    - injection Hc as -> <-. rewrite lookup_insert_eq. eauto.
    - injection Hc as -> _. by destruct (Hp name). }
  split; [|done].
  unfold compileFile_with_loader. rewrite Hc.
  assert (exists filename bytes,
            field "filename" fields = VString filename
            /\ readFileSync disk filename = inr bytes) as (filename & bytes & Hf & Hr).
  { unfold compileFile, read_args in Hc. simpl in Hc.
    destruct (field "filename" fields) as [| | | |filename| |]; try discriminate.
    simpl in Hc.
    destruct (or_else _ _); try discriminate.
    destruct (readFileSync disk filename) as [e|bytes] eqn:Hr; [discriminate|].
    eauto. }
  unfold read_args, read_loader_args. simpl. rewrite Hl, Hf. simpl.
  assert (truthy (VNumber n) = true) as Ht
    by (simpl; apply negb_true_iff, Z.eqb_neq; done).
  simpl in Ht. rewrite Ht.
  set (cl := if true && negb (truthy (field "createLoader" fields))
             then VBool true else field "createLoader" fields).
  assert (truthy cl = true) as Hcl
    by (unfold cl; by destruct (truthy (field "createLoader" fields)) eqn:E).
  set (cl2 := if truthy cl && negb (String.eqb (typeof cl) "string")
              then VString (lit "commonjs") else cl).
  assert (truthy cl2 = true) as Hcl2
    by (unfold cl2; rewrite Hcl;
        destruct (String.eqb (typeof cl) "string"); simpl; [exact Hcl | reflexivity]).
  rewrite Hcl2, Hr. reflexivity.
Qed.

Lemma compileFile_loader_failure_witness :
  @compileFile_with_loader Demo.node18 DemoPlatform.platform Demo.disk
    (VObject [("filename", VString (lit "app.js")); ("loaderFilename", VNumber 1)])
    VUndefined []
  = (Rejected TypeError,
     <[lit "app.jsc" :=
         Demo.cache [Byte.x11; Byte.x22; Byte.x33; Byte.x44]
           (Demo.wrap (lit "module.exports = 1 + 1"))]> Demo.disk)
  /\ is_Some ((<[lit "app.jsc" :=
                   Demo.cache [Byte.x11; Byte.x22; Byte.x33; Byte.x44]
                     (Demo.wrap (lit "module.exports = 1 + 1"))]> Demo.disk)
              !! lit "app.jsc").
Proof.
  apply (@compileFile_loader_failure Demo.node18 DemoPlatform.platform Demo.disk _
           [("filename", VString (lit "app.js")); ("loaderFilename", VNumber 1)]
           VUndefined [] (lit "app.jsc") 1).
  - reflexivity.
  - discriminate.
  - reflexivity.
Defined.

(** The ES-module loader, too, starts with the shebang line of the source
    and has none when the source has none, whatever the module exports. *)
Theorem loaderCodeModule_sheBang `{P : Platform}
  (targetPath source loaderFilePath code : jsstring) :
  loaderCodeModule targetPath (match_sheBang source) loaderFilePath = inr code ->
  match_sheBang code = match_sheBang source.
Proof.
  unfold loaderCodeModule.
  destruct (require_destructured loaderFilePath) as [e|[defaultExport namedExports]];
    [discriminate|].
  unfold bind.
  destruct (sheBang_cases source) as [(rest & -> & _ & Hm) | [_ Hm]]; rewrite Hm;
    unfold with_sheBang;
    repeat case_bool_decide; intros [= <-];
    cbn [join_lines app]; cbn [match_sheBang];
    by rewrite ?take_line_app_break.
Qed.

Lemma loaderCodeModule_sheBang_witness :
  match_sheBang
    (lit "#!/usr/bin/env node" ++ [10%N; 10%N]
     ++ lit "import { createRequire } from 'node:module'" ++ [10%N; 10%N]
     ++ lit "import 'bytenode'" ++ [10%N; 10%N; 10%N]
     ++ lit "const require = createRequire(import.meta.url)" ++ [10%N; 10%N]
     ++ lit "const {default: defaultExport, run} = require('./app.jsc')"
     ++ [10%N; 10%N; 10%N]
     ++ lit "export default defaultExport" ++ [10%N]
     ++ lit "export { run }")
  = match_sheBang (lit "#!/usr/bin/env node" ++ [10%N] ++ lit "run()").
Proof.
  apply (@loaderCodeModule_sheBang
           {| path_dirname := DemoPlatform.dirname;
              path_join := DemoPlatform.join;
              path_relative := DemoPlatform.relative;
              path_parse_name := DemoPlatform.name;
              utf8_encode := map Demo.byte_of;
              require_destructured := fun _ => inr (VBool true, [lit "run"]) |}
           (lit "./app.jsc") (lit "#!/usr/bin/env node" ++ [10%N] ++ lit "run()")
           (lit "app.loader.js")).
  reflexivity.
Defined.

(** ** The whole of [compileFile]: output name and loading back *)

Section WholeCompileFile.
Context `{H : Host} `{P : Platform}.

Lemma compileFile_output_name (disk written : Disk)
  (fields : list (string * value)) (out : jsstring) (output : value)
  (events : list child_event) (name : jsstring) :
  field "output" fields = VString out ->
  out <> [] ->
  compileFile disk (VObject fields) output events = (Resolved name, written) ->
  name = out /\ exists b, written = <[out := b]> disk.
Proof.
  intros Ho Hne. unfold compileFile, read_args. simpl. rewrite Ho.
  destruct (field "filename" fields) as [| | | |filename| |] eqn:Hf; simpl;
    try discriminate.
  assert (forall d, or_else (or_else (VString out) output) d = VString out) as ->.
  { intros d. unfold or_else. simpl.
    rewrite (bool_decide_eq_false_2 _ Hne). simpl.
    by rewrite (bool_decide_eq_false_2 _ Hne). }
  destruct (readFileSync disk filename) as [e|bytes]; simpl; [discriminate|].
  intros Hc.
  assert (exists b, written = <[name := b]> disk /\ name = out) as (b & -> & ->).
  { repeat case_match; simplify_eq; eauto. }
  eauto.
Qed.

Lemma addLoaderFile_writes_one (disk after : Disk) (fileToLoad : jsstring)
  (loaderFilename type : value) (sheBang : option jsstring) :
  addLoaderFile disk fileToLoad loaderFilename type sheBang = inr after ->
  exists path code, after = <[path := code]> disk.
Proof.
  unfold addLoaderFile.
  match goal with
  | |- context [bind ?m _] => destruct m as [e|loaderFilePath]
  end; cbn [bind]; [discriminate|].
  match goal with
  | |- context [bind ?m _] => destruct m as [e|code]
  end; cbn [bind]; [discriminate|].
  intros [= <-]. unfold writeFileSync. eauto.
Qed.

(** The whole function resolves only when the compile step does, with the
    same name, and its disk is that of the compile step with at most the
    loader file written on top. *)
Lemma compileFile_with_loader_resolved (disk after : Disk) (args output : value)
  (events : list child_event) (name : jsstring) :
  compileFile_with_loader disk args output events = (Resolved name, after) ->
  exists written,
    compileFile disk args output events = (Resolved name, written)
    /\ (after = written \/ exists path code, after = <[path := code]> written).
Proof.
  unfold compileFile_with_loader.
  destruct (compileFile disk args output events) as [[|name'|e] written] eqn:Hc;
    try discriminate.
  match goal with
  | |- context [match ?m with inl _ => _ | inr _ => _ end] =>
      destruct m as [e|after'] eqn:Hl
  end; [discriminate|].
  intros [= <- <-]. exists written. split; [done|].
  destruct (read_args args) as [e|rq]; cbn [bind] in Hl; [discriminate|].
  destruct (read_loader_args args) as [e|[createLoader loaderFilename]];
    cbn [bind] in Hl; [discriminate|].
  destruct (truthy createLoader).
  - destruct (rq_filename rq); try discriminate.
    destruct (readFileSync disk s) as [e|bytes]; cbn [bind] in Hl; [discriminate|].
    right. by apply addLoaderFile_writes_one in Hl.
  - left. by injection Hl as <-.
Qed.

Lemma compileFile_with_loader_no_loader (disk : Disk) (args output : value)
  (events : list child_event) :
  (forall fields, args = VObject fields ->
     truthy (field "createLoader" fields) = false
     /\ truthy (field "loaderFilename" fields) = false) ->
  compileFile_with_loader disk args output events
  = compileFile disk args output events.
Proof.
  intros Hunset. unfold compileFile_with_loader.
  destruct (compileFile_cases disk args output events)
    as [(name & b & Heq) | (p & Heq & Hp)]; rewrite Heq.
  - destruct args as [| | | |s| |fields];
      try (unfold compileFile, read_args in Heq; simpl in Heq; discriminate).
    + reflexivity.
    + destruct (Hunset fields eq_refl) as [Hc Hl].
      unfold read_args, read_loader_args. simpl. rewrite Hl, Hc. simpl.
      rewrite Hc. simpl. rewrite Hc. reflexivity.
  - destruct p; try done. by destruct (Hp a).
Qed.

End WholeCompileFile.

(** A non-empty string [args.output] is the name [compileFile] resolves
    with, loader or not, and a file of that name is on disk afterwards: the
    [output] parameter and the default name are not looked at. *)
Theorem compileFile_output_precedence `{H : Host} `{P : Platform}
  (disk after : Disk) (fields : list (string * value)) (out : jsstring)
  (output : value) (events : list child_event) (name : jsstring) :
  field "output" fields = VString out ->
  out <> [] ->
  compileFile_with_loader disk (VObject fields) output events
  = (Resolved name, after) ->
  name = out /\ is_Some (after !! out).
Proof.
  intros Ho Hne Hw.
  destruct (compileFile_with_loader_resolved _ _ _ _ _ _ Hw)
    as (written & Hc & Hafter).
  destruct (compileFile_output_name _ _ _ _ _ _ _ Ho Hne Hc) as (-> & b & ->).
  split; [done|].
  destruct Hafter as [-> | (path & code & ->)].
  - rewrite lookup_insert_eq. eauto.
  - destruct (decide (path = out)) as [->|Hp].
    + rewrite lookup_insert_eq. eauto.
    + rewrite lookup_insert_ne by done. rewrite lookup_insert_eq. eauto.
Qed.

Lemma compileFile_output_precedence_witness :
  lit "app.bin" = lit "app.bin"
  /\ is_Some ((<[lit "app.bin" :=
                   Demo.cache [Byte.x11; Byte.x22; Byte.x33; Byte.x44]
                     (Demo.wrap (lit "module.exports = 1 + 1"))]> Demo.disk)
              !! lit "app.bin").
Proof.
  apply (@compileFile_output_precedence Demo.node18 DemoPlatform.platform
           Demo.disk _
           [("filename", VString (lit "app.js")); ("output", VString (lit "app.bin"))]
           (lit "app.bin") (VString (lit "ignored.jsc")) []).
  - reflexivity.
  - discriminate.
  - reflexivity.
Defined.

(** For a request without loader options, once [compileFile] has resolved
    with a name the disk differs from the one before by that file only, and
    loading it with [runBytecodeFile] or through the [.jsc] handler
    rehydrates exactly the bytes written there. *)
Theorem compileFile_then_load `{H : Host} `{P : Platform} (disk after : Disk)
  (args output : value) (events : list child_event) (name : jsstring) :
  (forall fields, args = VObject fields ->
     truthy (field "createLoader" fields) = false
     /\ truthy (field "loaderFilename" fields) = false) ->
  compileFile_with_loader disk args output events = (Resolved name, after) ->
  exists written,
    after = <[name := written]> disk
    /\ (runBytecodeFile_script after (VString name)).1
       = generateScript (VBuffer written) VUndefined
    /\ (extension_jsc_script after name).1
       = generateScript (VBuffer written) (VString name).
Proof.
  intros Hunset Hw. rewrite compileFile_with_loader_no_loader in Hw by done.
  destruct (compileFile_cases disk args output events)
    as [(name' & b & Heq) | (p & Heq & Hp)]; rewrite Heq in Hw.
  - injection Hw as -> <-. exists b. split; [done|].
    unfold runBytecodeFile_script, extension_jsc_script, readFileSync.
    rewrite lookup_insert_eq. done.
  - injection Hw as -> _. by destruct (Hp name).
Qed.

Lemma compileFile_then_load_witness :
  exists written,
    <[lit "app.jsc" :=
        Demo.cache [Byte.x11; Byte.x22; Byte.x33; Byte.x44]
          (Demo.wrap (lit "module.exports = 1 + 1"))]> Demo.disk
    = <[lit "app.jsc" := written]> Demo.disk
    /\ (@runBytecodeFile_script Demo.node18
          (<[lit "app.jsc" :=
               Demo.cache [Byte.x11; Byte.x22; Byte.x33; Byte.x44]
                 (Demo.wrap (lit "module.exports = 1 + 1"))]> Demo.disk)
          (VString (lit "app.jsc"))).1
       = @generateScript Demo.node18 (VBuffer written) VUndefined
    /\ (@extension_jsc_script Demo.node18
          (<[lit "app.jsc" :=
               Demo.cache [Byte.x11; Byte.x22; Byte.x33; Byte.x44]
                 (Demo.wrap (lit "module.exports = 1 + 1"))]> Demo.disk)
          (lit "app.jsc")).1
       = @generateScript Demo.node18 (VBuffer written) (VString (lit "app.jsc")).
Proof.
  apply (@compileFile_then_load Demo.node18 DemoPlatform.platform Demo.disk _
           (VString (lit "app.js")) VUndefined []).
  - intros fields [=].
  - reflexivity.
Defined.
